(** * Mask-YOLO: decoding the YOLO head output into bounding boxes

    A shallow embedding of [myolo/model.py], section "Decode YOLO output to
    final bbox": [BoundBox], [bbox_iou], [_interval_overlap],
    [batch_decode_yolo], [_sigmoid] and [_softmax].

    Modelling choices.
    - A numpy float is an exact rational [Q]; rounding, infinities and NaN
      are outside the model.  Identities of exact arithmetic that doubles
      keep only approximately, such as a softmax vector summing to one, are
      not stated.  [np.exp] is a parameter [exp : Q -> Q] of every
      definition that calls it; the theorems assume of it at most that it is
      positive.
    - [np.argsort] is called with its default sort, which numpy documents
      as not stable: the order it gives to equal values is not fixed.  It is
      a parameter [argsort : list Q -> list nat] of every definition that
      calls it; the theorems assume of it at most [sorts], that it lists the
      positions in ascending order of value.
    - A numpy array is its shape together with its vectors along the last
      axis, in C order.  [yolo_out] is one mutable object shared between the
      caller, the function and the [classes] views held by the boxes: it is
      the state of the monad [M], which also carries Python's exceptions.
    - The coordinates of the boxes that reach [bbox_iou] are Python ints
      ([min(int(...), fm_height)]): they are [Z]. *)

From Stdlib Require Import ZArith QArith Qround Qminmax Qpower Sorted Lia Lqa.
From stdpp Require Import base list.

Local Open Scope Q_scope.

(** ** Exceptions and the state of the array *)

Inductive pyerr : Type :=
  | ValueError
  | IndexError
  | TypeError
  | ZeroDivisionError.

Inductive result (A : Type) : Type :=
  | Ok (a : A)
  | Raise (e : pyerr).

Arguments Ok {A} a.
Arguments Raise {A} e.

Definition result_bind {A B : Type} (r : result A) (k : A -> result B) : result B :=
  match r with
  | Ok a => k a
  | Raise e => Raise e
  end.

(** [shape] is [ndarray.shape]; [rows] lists the vectors [a[i0, ..., :]]
    along the last axis in C order (all leading axes flattened). *)
Record ndarray : Type := mk_ndarray {
  shape : list nat;
  rows : list (list Q)
}.

Definition set_rows (a : ndarray) (r : list (list Q)) : ndarray :=
  mk_ndarray (shape a) r.

(** A computation that reads and writes the array [yolo_out] and may raise. *)
Definition M (A : Type) : Type := ndarray -> result A * ndarray.

Definition ret {A : Type} (x : A) : M A := fun a => (Ok x, a).

Definition raise {A : Type} (e : pyerr) : M A := fun a => (Raise e, a).

Definition bind {A B : Type} (m : M A) (k : A -> M B) : M B :=
  fun a =>
    match m a with
    | (Ok x, a') => k x a'
    | (Raise e, a') => (Raise e, a')
    end.

Definition lift {A : Type} (r : result A) : M A := fun a => (r, a).

Definition get : M ndarray := fun a => (Ok a, a).

Definition modify_rows (f : list (list Q) -> list (list Q)) : M unit :=
  fun a => (Ok tt, set_rows a (f (rows a))).

Declare Scope yolo_scope.
Delimit Scope yolo_scope with yolo.
Notation "x <- m ;; k" := (bind m (fun x => k))
  (at level 100, m at next level, right associativity) : yolo_scope.
Notation "m ;;; k" := (bind m (fun _ => k))
  (at level 100, right associativity) : yolo_scope.
Notation "x <-r m ;; k" := (result_bind m (fun x => k))
  (at level 100, m at next level, right associativity) : yolo_scope.
Local Open Scope yolo_scope.

(** A [for] loop whose body appends to the list [boxes]: the boxes come out
    in iteration order, and the first exception ends the loop. *)
Fixpoint for_append {A B : Type} (l : list A) (body : A -> M (list B)) : M (list B) :=
  match l with
  | [] => ret []
  | x :: l' =>
      bs <- body x ;;
      bs' <- for_append l' body ;;
      ret (bs ++ bs')
  end.

(** A [for] loop run for its effect on the array. *)
Fixpoint for_each {A : Type} (l : list A) (body : A -> M unit) : M unit :=
  match l with
  | [] => ret tt
  | x :: l' => body x ;;; for_each l' body
  end.

(** ** Numbers *)

(** Python's [int(x)] on a float: truncation toward zero. *)
Definition int (x : Q) : Z := Z.quot (Qnum x) (Z.pos (Qden x)).

Definition of_nat (n : nat) : Q := inject_Z (Z.of_nat n).

Definition np_sum (x : list Q) : Q := foldr Qplus 0 x.

(** [np.max] and [np.min] of all the entries; a zero-size array raises. *)
Definition np_max (x : list Q) : result Q :=
  match x with
  | [] => Raise ValueError
  | v :: x' => Ok (foldr Qmax v x')
  end.

Definition np_min (x : list Q) : result Q :=
  match x with
  | [] => Raise ValueError
  | v :: x' => Ok (foldr Qmin v x')
  end.

(** [np.argmax]: the first position of the maximum. *)
Fixpoint argmax_from (i : nat) (best : nat) (bv : Q) (x : list Q) : nat :=
  match x with
  | [] => best
  | v :: x' =>
      if Qlt_le_dec bv v then argmax_from (S i) i v x'
      else argmax_from (S i) best bv x'
  end.

Definition np_argmax (x : list Q) : result nat :=
  match x with
  | [] => Raise ValueError
  | v :: x' => Ok (argmax_from 1 0 v x')
  end.

(** What is assumed of [np.argsort]: [argsort x] lists every position of
    [x] once, in ascending order of value.  Nothing is assumed of the order
    of positions that hold equal values. *)
Definition ascending (x : list Q) (i j : nat) : Prop := nth i x 0 <= nth j x 0.

Definition sorts (argsort : list Q -> list nat) : Prop :=
  forall x, argsort x ≡ₚ seq 0 (length x) /\ StronglySorted (ascending x) (argsort x).

(** Two sorts that [np.argsort] may be, for running the model on a concrete
    array.  [argsort_stable] sorts by insertion and keeps equal values in
    their original order, as numpy's default sort does where it sorts a
    short array by insertion; [argsort_ties_reversed] puts equal values in
    the reverse of their original order. *)
Fixpoint argsort_insert (x : list Q) (i : nat) (l : list nat) : list nat :=
  match l with
  | [] => [i]
  | j :: l' =>
      if Qle_bool (nth i x 0) (nth j x 0) then i :: j :: l'
      else j :: argsort_insert x i l'
  end.

Definition argsort_stable (x : list Q) : list nat :=
  foldr (argsort_insert x) [] (seq 0 (length x)).

Fixpoint argsort_insert_after (x : list Q) (i : nat) (l : list nat) : list nat :=
  match l with
  | [] => [i]
  | j :: l' =>
      if Qle_bool (nth j x 0) (nth i x 0) then j :: argsort_insert_after x i l'
      else i :: j :: l'
  end.

Definition argsort_ties_reversed (x : list Q) : list nat :=
  foldr (argsort_insert_after x) [] (seq 0 (length x)).

(** ** [BoundBox] *)

(** [classes] is the numpy view [yolo_out[row, col, b, 5:]]: it holds no
    scores of its own but the position, in [rows], of the vector it looks
    into.  [label] and [score] are the caches, [-1] when not yet computed. *)
Record BoundBox : Type := mkBoundBox {
  xmin : Z;
  ymin : Z;
  xmax : Z;
  ymax : Z;
  c : Q;
  classes : nat;
  label : Z;
  score : Q
}.

(** [BoundBox.__init__] *)
Definition new_BoundBox (xmin ymin xmax ymax : Z) (c : Q) (classes : nat) : BoundBox :=
  mkBoundBox xmin ymin xmax ymax c classes (-1)%Z (-1).

(** [box.classes[k]] *)
Definition classes_get (box : BoundBox) (k : nat) : M Q :=
  fun a =>
    match rows a !! classes box with
    | Some v =>
        match drop 5 v !! k with
        | Some s => (Ok s, a)
        | None => (Raise IndexError, a)
        end
    | None => (Raise IndexError, a)
    end.

(** [box.classes[k] = s]: written through the view into [yolo_out]. *)
Definition classes_set (box : BoundBox) (k : nat) (s : Q) : M unit :=
  fun a =>
    match rows a !! classes box with
    | Some v =>
        if (5 + k <? length v)%nat
        then (Ok tt, set_rows a (<[classes box := <[(5 + k)%nat := s]> v]> (rows a)))
        else (Raise IndexError, a)
    | None => (Raise IndexError, a)
    end.

(** [get_label] and [get_score], each returning its value and the box with
    its cache filled. *)
Definition get_label (box : BoundBox) : M (Z * BoundBox) :=
  if (label box =? -1)%Z then
    a <- get ;;
    i <- lift (np_argmax (drop 5 (nth (classes box) (rows a) []))) ;;
    let l := Z.of_nat i in
    ret (l, mkBoundBox (xmin box) (ymin box) (xmax box) (ymax box) (c box)
                       (classes box) l (score box))
  else ret (label box, box).

Definition get_score (box : BoundBox) : M (Q * BoundBox) :=
  if Qeq_bool (score box) (-1) then
    r <- get_label box ;;
    let '(l, box) := r in
    s <- classes_get box (Z.to_nat l) ;;
    ret (s, mkBoundBox (xmin box) (ymin box) (xmax box) (ymax box) (c box)
                       (classes box) (label box) s)
  else ret (score box, box).

(** ** IoU *)

Definition _interval_overlap (interval_a interval_b : Z * Z) : Z :=
  let '(x1, x2) := interval_a in
  let '(x3, x4) := interval_b in
  if (x3 <? x1)%Z then
    if (x4 <? x1)%Z then 0%Z
    else (Z.min x2 x4 - x1)%Z
  else
    if (x2 <? x3)%Z then 0%Z
    else (Z.min x2 x4 - x3)%Z.

(** [float(intersect) / union]; Python raises on a zero [union]. *)
Definition bbox_iou (box1 box2 : BoundBox) : result Q :=
  let intersect_w := _interval_overlap (xmin box1, xmax box1) (xmin box2, xmax box2) in
  let intersect_h := _interval_overlap (ymin box1, ymax box1) (ymin box2, ymax box2) in
  let intersect := (intersect_w * intersect_h)%Z in
  let '(w1, h1) := ((xmax box1 - xmin box1)%Z, (ymax box1 - ymin box1)%Z) in
  let '(w2, h2) := ((xmax box2 - xmin box2)%Z, (ymax box2 - ymin box2)%Z) in
  let union := (w1 * h1 + w2 * h2 - intersect)%Z in
  if (union =? 0)%Z then Raise ZeroDivisionError
  else Ok (inject_Z intersect / inject_Z union).

(** ** Activations *)

Definition _sigmoid (exp : Q -> Q) (x : Q) : Q := 1 / (1 + exp (- x)).

(** The first half of [_softmax], up to [np.exp]: the shift by [np.max(x)]
    and the rescaling by [t / np.min(x)].  Both reductions are called
    without an axis and range over every entry of [x]. *)
Definition softmax_shift (t : Q) (x : list (list Q)) : result (list (list Q)) :=
  m <-r np_max (concat x) ;;
  let x := map (map (fun v => v - m)) x in
  mn <-r np_min (concat x) ;;
  Ok (if Qlt_le_dec mn t then map (map (fun v => v / mn * t)) x else x).

(** [_softmax(x, axis=-1, t)]: only [e_x.sum(axis, keepdims=True)] is taken
    per vector. *)
Definition _softmax (exp : Q -> Q) (t : Q) (x : list (list Q)) : result (list (list Q)) :=
  x <-r softmax_shift t x ;;
  let e_x := map (map exp) x in
  Ok (map (fun ev => map (fun e => e / np_sum ev) ev) e_x).

(** The size of the last axis. *)
Definition last_dim (a : ndarray) : nat := List.last (shape a) 0%nat.

(** [yolo_out[..., 4] = _sigmoid(yolo_out[..., 4])] *)
Definition act_objectness (exp : Q -> Q) : M unit :=
  a <- get ;;
  if (last_dim a <? 5)%nat then raise IndexError
  else modify_rows (map (fun v => <[4%nat := _sigmoid exp (nth 4 v 0)]> v)).

(** [yolo_out[..., 5:] = yolo_out[..., 4][..., np.newaxis] * _softmax(yolo_out[..., 5:])] *)
Definition act_classes (exp : Q -> Q) : M unit :=
  a <- get ;;
  p <- lift (_softmax exp (-100) (map (drop 5) (rows a))) ;;
  modify_rows (fun r =>
    zip_with (fun v pv => take 5 v ++ map (Qmult (nth 4 v 0)) pv) r p).

(** [yolo_out[..., 5:] *= yolo_out[..., 5:] > obj_thre] *)
Definition threshold_mask (obj_thre : Q) (s : Q) : Q :=
  s * (if Qlt_le_dec obj_thre s then 1 else 0).

Definition act_threshold (obj_thre : Q) : M unit :=
  modify_rows (map (fun v => take 5 v ++ map (threshold_mask obj_thre) (drop 5 v))).

(** Lines 671-673 of [batch_decode_yolo]. *)
Definition activate (exp : Q -> Q) (obj_thre : Q) : M unit :=
  act_objectness exp ;;;
  act_classes exp ;;;
  act_threshold obj_thre.

(** ** Candidate boxes *)

Definition prod_dims (l : list nat) : nat := foldr Nat.mul 1%nat l.

(** The bounds check of [yolo_out[row, col, b, ...]] on the first three axes
    and the position, in [rows], of the first vector of that sub-array. *)
Definition index3 (sh : list nat) (row col b : nat) : result nat :=
  match sh with
  | d0 :: d1 :: d2 :: tail =>
      if (row <? d0)%nat && (col <? d1)%nat && (b <? d2)%nat
      then Ok (((row * d1 + col) * d2 + b) * prod_dims (removelast tail))%nat
      else Raise IndexError
  | _ => Raise IndexError
  end.

(** [anchors[i]] *)
Definition anchors_get (anchors : list Q) (i : nat) : result Q :=
  match anchors !! i with
  | Some v => Ok v
  | None => Raise IndexError
  end.

(** The first [BoundBox] of line 692, whose coordinates are floats in units
    of the image. *)
Record ImageBox : Type := mkImageBox {
  bxmin : Q;
  bymin : Q;
  bxmax : Q;
  bymax : Q
}.

(** Lines 683-692 on a four-dimensional array, where [yolo_out[row, col, b]]
    is a vector [v] of scalars. *)
Definition image_box (exp : Q -> Q) (anchors : list Q) (grid_h grid_w : nat)
    (row col b : nat) (v : list Q) : result ImageBox :=
  let '(x, y, w, h) := (nth 0 v 0, nth 1 v 0, nth 2 v 0, nth 3 v 0) in
  let x := (of_nat col + _sigmoid exp x) / of_nat grid_w in
  let y := (of_nat row + _sigmoid exp y) / of_nat grid_h in
  aw <-r anchors_get anchors (2 * b + 0) ;;
  let w := aw * exp w / of_nat grid_w in
  ah <-r anchors_get anchors (2 * b + 1) ;;
  let h := ah * exp h / of_nat grid_h in
  Ok (mkImageBox (x - w / 2) (y - h / 2) (x + w / 2) (y + h / 2)).

(** Lines 693-698: from the box in image units to the box on the feature
    map. *)
Definition rescale_box (fm_height fm_width : Z) (box : ImageBox)
    (confidence : Q) (classes : nat) : BoundBox :=
  let xmin := Z.min (int (bxmin box * inject_Z fm_width)) fm_height in
  let ymin := Z.min (int (bymin box * inject_Z fm_height)) fm_height in
  let xmax := Z.min (int (bxmax box * inject_Z fm_width)) fm_width in
  let ymax := Z.min (int (bymax box * inject_Z fm_height)) fm_height in
  new_BoundBox xmin ymin xmax ymax confidence classes.

(** Lines 683-698; [r] is the position of [v] in the array. *)
Definition decode_box (exp : Q -> Q) (anchors : list Q) (fm_height fm_width : Z)
    (grid_h grid_w : nat) (row col b : nat) (r : nat) (v : list Q) : result BoundBox :=
  box <-r image_box exp anchors grid_h grid_w row col b v ;;
  let confidence := nth 4 v 0 in
  Ok (rescale_box fm_height fm_width box confidence r).

(** The body of the three loops (lines 679-700) at one [(row, col, b)]; it
    returns what it appends to [boxes].

    On a four-dimensional array [classes] is the vector of class scores of
    one cell.  With more axes, [yolo_out[row, col, b, 5:]] is the block of
    the sub-arrays [5:] along the fourth axis; when its sum is positive,
    [x, y, w, h] are arrays with more than one entry and [int(...)] raises
    [TypeError], after the two look-ups in [anchors]. *)
Definition candidate (exp : Q -> Q) (anchors : list Q) (fm_height fm_width : Z)
    (grid_h grid_w : nat) (row col b : nat) : M (list BoundBox) :=
  a <- get ;;
  r <- lift (index3 (shape a) row col b) ;;
  match drop 3 (shape a) with
  | [_] =>
      let v := nth r (rows a) [] in
      if Qlt_le_dec 0 (np_sum (drop 5 v)) then
        box <- lift (decode_box exp anchors fm_height fm_width grid_h grid_w row col b r v) ;;
        ret [box]
      else ret []
  | d3 :: rest =>
      let inner := prod_dims (removelast rest) in
      let block := take ((d3 - 5) * inner) (drop (r + 5 * inner) (rows a)) in
      if Qlt_le_dec 0 (np_sum (concat block)) then
        _ <- lift (anchors_get anchors (2 * b + 0)) ;;
        _ <- lift (anchors_get anchors (2 * b + 1)) ;;
        raise TypeError
      else ret []
  | [] => raise IndexError
  end.

(** Lines 675-700. *)
Definition build_boxes (exp : Q -> Q) (anchors : list Q) (fm_height fm_width : Z)
    (grid_h grid_w nb_box : nat) : M (list BoundBox) :=
  for_append (seq 0 grid_h) (fun row =>
    for_append (seq 0 grid_w) (fun col =>
      for_append (seq 0 nb_box) (fun b =>
        candidate exp anchors fm_height fm_width grid_h grid_w row col b))).

(** ** Suppression *)

(** [boxes[i]] *)
Definition boxes_get (boxes : list BoundBox) (i : nat) : M BoundBox :=
  match boxes !! i with
  | Some box => ret box
  | None => raise IndexError
  end.

(** [[box.classes[k] for box in boxes]] *)
Fixpoint class_column (boxes : list BoundBox) (k : nat) : M (list Q) :=
  match boxes with
  | [] => ret []
  | box :: boxes' =>
      s <- classes_get box k ;;
      col <- class_column boxes' k ;;
      ret (s :: col)
  end.

(** Lines 713-716: the body of the loop on [j]. *)
Definition suppress_pair (boxes : list BoundBox) (k : nat) (nms_thre : Q)
    (index_i index_j : nat) : M unit :=
  box_i <- boxes_get boxes index_i ;;
  box_j <- boxes_get boxes index_j ;;
  iou <- lift (bbox_iou box_i box_j) ;;
  if Qle_bool nms_thre iou then classes_set box_j k 0
  else ret tt.

(** Lines 712-716: the loop on [j], over the indices sorted after [index_i]. *)
Definition suppress_later (boxes : list BoundBox) (k : nat) (nms_thre : Q)
    (index_i : nat) (later : list nat) : M unit :=
  for_each later (suppress_pair boxes k nms_thre index_i).

(** Lines 706-716: the loop on [i], over what is left of [sorted_indices]. *)
Fixpoint suppress_from (boxes : list BoundBox) (k : nat) (nms_thre : Q)
    (sorted_indices : list nat) : M unit :=
  match sorted_indices with
  | [] => ret tt
  | index_i :: later =>
      box_i <- boxes_get boxes index_i ;;
      s <- classes_get box_i k ;;
      (if Qeq_bool s 0 then ret tt
       else suppress_later boxes k nms_thre index_i later) ;;;
      suppress_from boxes k nms_thre later
  end.

(** Line 704 *)
Definition sorted_indices_of (argsort : list Q -> list nat) (col : list Q) : list nat :=
  reverse (argsort col).

(** Lines 704-716 for one class [k]. *)
Definition suppress_class (argsort : list Q -> list nat) (boxes : list BoundBox)
    (nms_thre : Q) (k : nat) : M unit :=
  col <- class_column boxes k ;;
  suppress_from boxes k nms_thre (sorted_indices_of argsort col).

(** Lines 703-716. *)
Definition suppress (argsort : list Q -> list nat) (boxes : list BoundBox)
    (nb_class : nat) (nms_thre : Q) : M unit :=
  for_each (seq 0 nb_class) (suppress_class argsort boxes nms_thre).

(** Line 719 *)
Definition final_filter (boxes : list BoundBox) (obj_thre : Q) : M (list BoundBox) :=
  for_append boxes (fun box =>
    r <- get_score box ;;
    let '(s, box) := r in
    if Qlt_le_dec obj_thre s then ret [box] else ret []).

(** ** The decoder *)

Definition batch_decode_yolo (argsort : list Q -> list nat) (exp : Q -> Q)
    (anchors : list Q) (nb_class : nat) (feature_map_shape : Z * Z)
    (obj_thre nms_thre : Q) : M (list BoundBox) :=
  yolo_out <- get ;;
  match shape yolo_out with
  | batch :: grid_h :: grid_w :: nb_box :: _ =>
      let fm_height := fst feature_map_shape in
      let fm_width := snd feature_map_shape in
      activate exp obj_thre ;;;
      boxes <- build_boxes exp anchors fm_height fm_width grid_h grid_w nb_box ;;
      suppress argsort boxes nb_class nms_thre ;;;
      final_filter boxes obj_thre
  | _ => raise ValueError
  end.

(** ** A computable base-two exponential

    [exp2] interpolates [2^n] linearly between consecutive integers.  It is
    positive and [exp2 0 = 1]; it stands for [np.exp] where the model is run
    on a concrete array.  The arrays that the decoder is run on below hold
    only the raw values [0] and [-10], for which all that matters of the
    exponential is that [exp 0 = 1] and that [exp (-10)] and
    [1 / (1 + exp 10)] are small. *)
Definition exp2 (x : Q) : Q :=
  let n := Qfloor x in
  Qpower 2 n * (1 + (x - inject_Z n)).

(** ** The specification's wording, for comparison *)

(** Section 4.1 of the specification: the softmax stabilised per vector.
    The maximum of the vector is subtracted from its entries, and the vector
    is rescaled by [t / min(vector)] when its minimum is below [t]. *)
Definition stabilize_vector (t : Q) (v : list Q) : result (list Q) :=
  m <-r np_max v ;;
  let v := map (fun e => e - m) v in
  mn <-r np_min v ;;
  Ok (if Qlt_le_dec mn t then map (fun e => e * (t / mn)) v else v).

(** Python's [round] on a float: to the nearest integer, a tie going to the
    even one. *)
Definition round (x : Q) : Z :=
  let f := Qfloor x in
  let d := x - inject_Z f in
  if Qlt_le_dec d (1 # 2) then f
  else if Qlt_le_dec (1 # 2) d then (f + 1)%Z
  else if Z.even f then f else (f + 1)%Z.

(** Section 4.2, step 4 of the specification: the rescaling with [round]
    where the code has [int]. *)
Definition rescale_box_rounding (fm_height fm_width : Z) (box : ImageBox)
    (confidence : Q) (classes : nat) : BoundBox :=
  let xmin := Z.min (round (bxmin box * inject_Z fm_width)) fm_height in
  let ymin := Z.min (round (bymin box * inject_Z fm_height)) fm_height in
  let xmax := Z.min (round (bxmax box * inject_Z fm_width)) fm_width in
  let ymax := Z.min (round (bymax box * inject_Z fm_height)) fm_height in
  new_BoundBox xmin ymin xmax ymax confidence classes.

(** ** Vocabulary of the statements *)

Definition result_map {A B : Type} (f : A -> B) (r : result A) : result B :=
  match r with
  | Ok a => Ok (f a)
  | Raise e => Raise e
  end.

(** A computation that leaves the array as it found it. *)
Definition reads_only {A : Type} (m : M A) : Prop :=
  forall a r a', m a = (r, a') -> a' = a.

(** Position [i] comes before position [j] in the ascending order of the
    values of [x] that keeps equal values in their original order. *)
Definition stable_before (x : list Q) (i j : nat) : Prop :=
  nth i x 0 < nth j x 0 \/ (nth i x 0 == nth j x 0 /\ (i < j)%nat).

(** The score for class [k] seen through the view at position [r]. *)
Definition score_at (a : ndarray) (r k : nat) : option Q :=
  match rows a !! r with
  | Some v => v !! (5 + k)%nat
  | None => None
  end.

(** From [a] to [a'] nothing has changed but scores for class [k] of
    vectors whose position satisfies [P], which have become [0]. *)
Definition zeroes (k : nat) (P : nat -> Prop) (a a' : ndarray) : Prop :=
  shape a' = shape a /\
  length (rows a') = length (rows a) /\
  forall r v v', rows a !! r = Some v -> rows a' !! r = Some v' ->
    length v' = length v /\
    forall n, v' !! n = v !! n \/ (n = (5 + k)%nat /\ P r /\ v' !! n = Some 0).

(** The positions viewed by the boxes whose indices are in [l]. *)
Definition viewed (boxes : list BoundBox) (l : list nat) (r : nat) : Prop :=
  exists j box, j ∈ l /\ boxes !! j = Some box /\ classes box = r.

(** The scores for class [k] of all the boxes, when each has one. *)
Fixpoint column_of (a : ndarray) (boxes : list BoundBox) (k : nat) : option (list Q) :=
  match boxes with
  | [] => Some []
  | box :: boxes' =>
      match score_at a (classes box) k, column_of a boxes' k with
      | Some s, Some col => Some (s :: col)
      | _, _ => None
      end
  end.

(** What the suppression pass for class [k] establishes along the order
    [l]: a box whose score for [k] is not zero has an IoU with every box
    after it in [l], and those for which it reaches [nms_thre] have the
    score [0]. *)
Definition separated (boxes : list BoundBox) (k : nat) (nms_thre : Q)
    (l : list nat) (a : ndarray) : Prop :=
  forall p q i j box_i box_j s,
    (p < q)%nat -> l !! p = Some i -> l !! q = Some j ->
    boxes !! i = Some box_i -> boxes !! j = Some box_j ->
    score_at a (classes box_i) k = Some s -> ~ s == 0 ->
    exists iou, bbox_iou box_i box_j = Ok iou /\
      (nms_thre <= iou -> score_at a (classes box_j) k = Some 0).

(** From [a] to [a'] nothing has changed but class scores (entries from
    channel 5 on), which have become [0]. *)
Definition suppressed (a a' : ndarray) : Prop :=
  shape a' = shape a /\
  length (rows a') = length (rows a) /\
  forall r v v', rows a !! r = Some v -> rows a' !! r = Some v' ->
    length v' = length v /\
    forall n, v' !! n = v !! n \/ ((5 <= n)%nat /\ v' !! n = Some 0).

Definition corners (box : BoundBox) : Z * Z * Z * Z :=
  (xmin box, ymin box, xmax box, ymax box).

(** [m] is the greatest (least) entry of [x]. *)
Definition max_of (m : Q) (x : list Q) : Prop :=
  m ∈ x /\ Forall (fun v => v <= m) x.

Definition min_of (m : Q) (x : list Q) : Prop :=
  m ∈ x /\ Forall (fun v => m <= v) x.

(** The class scores held by an array: the channels from 5 on of every
    vector. *)
Definition class_scores (a : ndarray) : list (list Q) := map (drop 5) (rows a).

Definition in_unit (s : Q) : Prop := 0 <= s /\ s <= 1.

(** What the mask of line 673 makes of a score [s]: [s'] is zero when [s] is
    not above the threshold and [s] itself, not renormalised, otherwise. *)
Definition masked (obj_thre : Q) (s s' : Q) : Prop :=
  (s <= obj_thre -> s' == 0) /\ (obj_thre < s -> s' == s).

(** ** Concrete arrays *)

(** One cell and one anchor slot with one class, every raw value zero. *)
Definition single_vector : ndarray :=
  mk_ndarray [1; 1; 1; 6]%nat [[0; 0; 0; 0; 0; 0]].

(** The array of [softmax_shift]'s example: two vectors of class logits. *)
Definition two_logit_vectors : list (list Q) := [[0; 0]; [-200; -400]].

(** A batch of two images, each a [2 x 2] grid with [2] anchor slots and one
    class, every raw value zero. *)
Definition two_image_batch : ndarray :=
  mk_ndarray [2; 2; 2; 2; 6]%nat (replicate 16 [0; 0; 0; 0; 0; 0]).

(** The first image of [two_image_batch], as a batch of one. *)
Definition one_image_batch : ndarray :=
  mk_ndarray [1; 2; 2; 2; 6]%nat (replicate 8 [0; 0; 0; 0; 0; 0]).

(** Arrays of shape [(6, 6, 6, 6)]: the loops of [batch_decode_yolo] take
    the last three sizes for the grid and the anchor slots, so this is a
    [6 x 6] grid with [6] slots and one class.  Every vector is [quiet]
    (objectness logit [-10], score below any threshold used here) except
    the first ones, which belong to the cells [(0, 0, 0)] and [(0, 0, 1)]. *)
Definition quiet : list Q := [0; 0; 0; 0; -10; 0].

Definition cube (first : list (list Q)) : ndarray :=
  mk_ndarray [6; 6; 6; 6]%nat (first ++ replicate (216 - length first) quiet).

(** Anchors for the six slots: the slot [1] is three times as large as
    the others. *)
Definition anchors_two_sizes : list Q := [1; 1; 3; 3] ++ replicate 8 1.

(** One candidate, every raw value zero. *)
Definition one_box_cube : ndarray := cube [[0; 0; 0; 0; 0; 0]].

(** Two candidates with the same raw values, hence the same box and the
    same class score. *)
Definition two_box_cube : ndarray := cube [[0; 0; 0; 0; 0; 0]; [0; 0; 0; 0; 0; 0]].


(** * Further vocabulary

    Used by the statements of the second part of the properties. *)



(** What a box is apart from its caches [label] and [score]. *)
Definition candidate_of (box : BoundBox) : Z * Z * Z * Z * Q * nat :=
  (xmin box, ymin box, xmax box, ymax box, c box, classes box).

(** [m] is the greatest entry of [x] and [i] the first position that holds
    it. *)
Definition first_max_at (x : list Q) (i : nat) (m : Q) : Prop :=
  x !! i = Some m /\
  Forall (fun v => v <= m) x /\
  forall j v, (j < i)%nat -> x !! j = Some v -> v < m.

(** The vector that [box] looks into holds a class score above [obj_thre]. *)
Definition above_threshold (obj_thre : Q) (a : ndarray) (box : BoundBox) : Prop :=
  exists v s, rows a !! classes box = Some v /\ s ∈ drop 5 v /\ obj_thre < s.


(** From [a] to [a'], along the order [l], a score for class [k] has gone
    from non-zero to zero only in the vector of a box that comes after
    another one in [l], which has kept its own non-zero score and with which
    its IoU reaches [nms_thre]. *)
Definition caused (boxes : list BoundBox) (k : nat) (nms_thre : Q)
    (l : list nat) (a a' : ndarray) : Prop :=
  forall r s s',
    score_at a r k = Some s -> ~ s == 0 ->
    score_at a' r k = Some s' -> s' == 0 ->
    exists p q i j box_i box_j s_i iou,
      (p < q)%nat /\ l !! p = Some i /\ l !! q = Some j /\
      boxes !! i = Some box_i /\ boxes !! j = Some box_j /\ classes box_j = r /\
      score_at a (classes box_i) k = Some s_i /\
      score_at a' (classes box_i) k = Some s_i /\ ~ s_i == 0 /\
      bbox_iou box_i box_j = Ok iou /\ nms_thre <= iou.

(** ** [MaskYOLO.build]: the guard on the image size

    Lines 520-524.  [h] and [w] are the ints [config.IMAGE_SHAPE[:2]] and
    [2**6] is [64]. *)

(** [h / 2**6], Python's true division of an int: the double nearest to the
    quotient, a tie going to the even significand.  A double has 53
    significant bits; for [|h| < 2^53] the quotient is a double as it is.
    [None] is the [OverflowError] of a quotient of [2^1024] or more. *)
Definition true_divide_64 (h : Z) : option Q :=
  let a := Z.abs h in
  let shift := (Z.log2 a - 52)%Z in
  if (shift <=? 0)%Z then Some (inject_Z h / 64)
  else
    let q := (a / 2 ^ shift)%Z in
    let r := (a mod 2 ^ shift)%Z in
    let half := (2 ^ (shift - 1))%Z in
    let q' := if (half <? r)%Z || ((r =? half)%Z && Z.odd q) then (q + 1)%Z else q in
    let m := (q' * 2 ^ shift)%Z in
    if (2 ^ 1030 <=? m)%Z then None
    else Some (inject_Z (Z.sgn h * m) / 64).

(** [h / 2**6 != int(h / 2**6)] *)
Definition divides_unevenly (h : Z) : option bool :=
  match true_divide_64 h with
  | Some q => Some (negb (Qeq_bool q (inject_Z (int q))))
  | None => None
  end.

(** The condition of line 521, [or] evaluating its second operand only when
    the first is false; [Some true] when [build] raises its [Exception]. *)
Definition image_size_rejected (h w : Z) : option bool :=
  match divides_unevenly h with
  | Some false => divides_unevenly w
  | r => r
  end.
(** * Properties *)

(** ** Tactics *)

(** For a goal [(r, a0) = (r', a') -> P a'], left when a computation has been
    run down to the pair it returns: [a'] is [a0], and [P a0] holds by
    computation. *)
Ltac same_array := intros [= _ <-]; reflexivity.

(** ** The stand-in for [np.exp] *)

Lemma exp2_pos (x : Q) : 0 < exp2 x.
Proof.
  unfold exp2. cbv zeta.
  pose proof (Qfloor_le x) as Hfl.
  assert (H2 : 0 < Qpower 2 (Qfloor x)) by (apply Qpower_0_lt; reflexivity).
  apply Qmult_lt_0_compat; [exact H2|]. lra.
Qed.

Lemma unit_quotient (e d : Q) : 0 < d -> 0 <= e -> e <= d -> in_unit (e / d).
Proof.
  intros Hd He Hed. split.
  - apply Qle_shift_div_l; [exact Hd|]. lra.
  - apply Qle_shift_div_r; [exact Hd|]. lra.
Qed.

(** ** IoU *)

Lemma interval_overlap_sym (x1 x2 x3 x4 : Z) :
  (x1 <= x2)%Z -> (x3 <= x4)%Z ->
  _interval_overlap (x1, x2) (x3, x4) = _interval_overlap (x3, x4) (x1, x2).
Proof.
  intros H12 H34. unfold _interval_overlap.
  destruct (Z.ltb_spec x3 x1), (Z.ltb_spec x1 x3),
    (Z.ltb_spec x4 x1), (Z.ltb_spec x2 x3); lia.
Qed.

(** C9: on boxes with [xmin <= xmax] and [ymin <= ymax], [bbox_iou] gives the
    same outcome (the same quotient, or the same exception) whichever box
    comes first. *)
Theorem bbox_iou_symmetric (box1 box2 : BoundBox) :
  (xmin box1 <= xmax box1)%Z -> (ymin box1 <= ymax box1)%Z ->
  (xmin box2 <= xmax box2)%Z -> (ymin box2 <= ymax box2)%Z ->
  bbox_iou box1 box2 = bbox_iou box2 box1.
Proof.
  intros Hx1 Hy1 Hx2 Hy2. unfold bbox_iou.
  rewrite (interval_overlap_sym (xmin box1)) by assumption.
  rewrite (interval_overlap_sym (ymin box1)) by assumption.
  cbv zeta.
  replace ((xmax box2 - xmin box2) * (ymax box2 - ymin box2)
           + (xmax box1 - xmin box1) * (ymax box1 - ymin box1))%Z
    with ((xmax box1 - xmin box1) * (ymax box1 - ymin box1)
          + (xmax box2 - xmin box2) * (ymax box2 - ymin box2))%Z by lia.
  reflexivity.
Qed.

Lemma bbox_iou_symmetric_witness :
  bbox_iou (new_BoundBox 0 0 4 4 (1 # 2) 0) (new_BoundBox 2 1 6 5 (1 # 2) 1)
  = bbox_iou (new_BoundBox 2 1 6 5 (1 # 2) 1) (new_BoundBox 0 0 4 4 (1 # 2) 0).
Proof.
  apply bbox_iou_symmetric; simpl; lia.
Defined.


(** [bbox_iou] has no check of its own: it raises exactly when the union is
    zero, and what it raises is Python's [ZeroDivisionError]. *)
Lemma bbox_iou_raises (box1 box2 : BoundBox) (e : pyerr) :
  bbox_iou box1 box2 = Raise e <->
  e = ZeroDivisionError /\
  ((xmax box1 - xmin box1) * (ymax box1 - ymin box1)
   + (xmax box2 - xmin box2) * (ymax box2 - ymin box2)
   - _interval_overlap (xmin box1, xmax box1) (xmin box2, xmax box2)
     * _interval_overlap (ymin box1, ymax box1) (ymin box2, ymax box2) = 0)%Z.
Proof.
  unfold bbox_iou. cbv zeta.
  destruct (Z.eqb_spec
    ((xmax box1 - xmin box1) * (ymax box1 - ymin box1)
     + (xmax box2 - xmin box2) * (ymax box2 - ymin box2)
     - _interval_overlap (xmin box1, xmax box1) (xmin box2, xmax box2)
       * _interval_overlap (ymin box1, ymax box1) (ymin box2, ymax box2)) 0) as [H0|H0].
  - split; [intros [= <-]; split; [reflexivity|exact H0]|intros [-> _]; reflexivity].
  - split; [discriminate|intros [_ H]; contradiction].
Qed.




(** ** The softmax *)

Lemma Qmax_cases (a b : Q) : Qmax a b = a \/ Qmax a b = b.
Proof.
  unfold Qmax, GenericMinMax.gmax. destruct (a ?= b); auto.
Qed.

Lemma Qmin_cases (a b : Q) : Qmin a b = a \/ Qmin a b = b.
Proof.
  unfold Qmin, GenericMinMax.gmin. destruct (a ?= b); auto.
Qed.

Lemma foldr_Qmax_max_of (v : Q) (x : list Q) : max_of (foldr Qmax v x) (x ++ [v]).
Proof.
  induction x as [|w x [IHin IHle]]; simpl.
  - split; [apply list_elem_of_singleton; reflexivity|].
    repeat constructor. apply Qle_refl.
  - split.
    + destruct (Qmax_cases w (foldr Qmax v x)) as [-> | ->].
      * left.
      * right. exact IHin.
    + constructor.
      * apply Q.le_max_l.
      * eapply Forall_impl; [exact IHle|].
        intros u Hu. simpl in Hu. eapply Qle_trans; [exact Hu|apply Q.le_max_r].
Qed.

Lemma foldr_Qmin_min_of (v : Q) (x : list Q) : min_of (foldr Qmin v x) (x ++ [v]).
Proof.
  induction x as [|w x [IHin IHle]]; simpl.
  - split; [apply list_elem_of_singleton; reflexivity|].
    repeat constructor. apply Qle_refl.
  - split.
    + destruct (Qmin_cases w (foldr Qmin v x)) as [-> | ->].
      * left.
      * right. exact IHin.
    + constructor.
      * apply Q.le_min_l.
      * eapply Forall_impl; [exact IHle|].
        intros u Hu. simpl in Hu. eapply Qle_trans; [apply Q.le_min_r|exact Hu].
Qed.

Lemma np_max_spec (x : list Q) :
  x <> [] -> exists m, np_max x = Ok m /\ max_of m x.
Proof.
  destruct x as [|v x]; [congruence|]. intros _.
  exists (foldr Qmax v x). split; [reflexivity|].
  destruct (foldr_Qmax_max_of v x) as [Hin Hle]. split.
  - apply elem_of_app in Hin as [Hin | Hin].
    + right. exact Hin.
    + apply list_elem_of_singleton in Hin. rewrite Hin. left.
  - apply Forall_app in Hle as [Hx Hv]. constructor; [|exact Hx].
    inversion Hv; assumption.
Qed.

Lemma np_min_spec (x : list Q) :
  x <> [] -> exists m, np_min x = Ok m /\ min_of m x.
Proof.
  destruct x as [|v x]; [congruence|]. intros _.
  exists (foldr Qmin v x). split; [reflexivity|].
  destruct (foldr_Qmin_min_of v x) as [Hin Hle]. split.
  - apply elem_of_app in Hin as [Hin | Hin].
    + right. exact Hin.
    + apply list_elem_of_singleton in Hin. rewrite Hin. left.
  - apply Forall_app in Hle as [Hx Hv]. constructor; [|exact Hx].
    inversion Hv; assumption.
Qed.

Lemma concat_map_map {A B : Type} (f : A -> B) (x : list (list A)) :
  concat (map (map f) x) = map f (concat x).
Proof.
  induction x as [|v x IH]; simpl; [reflexivity|].
  rewrite IH, map_app. reflexivity.
Qed.

(** The shift and the rescaling of [_softmax] use the greatest and the least
    entry of the whole array. *)
Lemma softmax_shift_spec (t : Q) (x : list (list Q)) :
  concat x <> [] ->
  exists m mn,
    max_of m (concat x) /\
    min_of mn (map (fun v => v - m) (concat x)) /\
    softmax_shift t x =
      Ok (map (map (fun v => if Qlt_le_dec mn t then (v - m) / mn * t else v - m)) x).
Proof.
  intros Hne. unfold softmax_shift.
  destruct (np_max_spec (concat x) Hne) as (m & -> & Hm). simpl.
  rewrite concat_map_map.
  assert (Hne' : map (fun v => v - m) (concat x) <> []).
  { destruct (concat x); simpl; congruence. }
  destruct (np_min_spec _ Hne') as (mn & -> & Hmn). simpl.
  exists m, mn. split; [exact Hm|]. split; [exact Hmn|].
  f_equal. destruct (Qlt_le_dec mn t); [|reflexivity].
  rewrite map_map. apply map_ext. intros v. rewrite map_map. reflexivity.
Qed.

(** C5, as the code has it: [_softmax] subtracts the maximum of the whole
    array from every entry and, when the least shifted entry of the whole
    array is below [t], rescales every entry by [t] over that minimum; only
    the normalising sum is taken vector by vector.  On an array with at
    least one entry it returns. *)
Theorem softmax_stabilised_over_whole_array (exp : Q -> Q) (t : Q) (x : list (list Q)) :
  concat x <> [] ->
  exists m mn,
    max_of m (concat x) /\
    min_of mn (map (fun v => v - m) (concat x)) /\
    _softmax exp t x =
      Ok (map (fun v =>
                 let s := map (fun e => if Qlt_le_dec mn t then (e - m) / mn * t else e - m) v in
                 map (fun e => exp e / np_sum (map exp s)) s) x).
Proof.
  intros Hne.
  destruct (softmax_shift_spec t x Hne) as (m & mn & Hm & Hmn & Hs).
  exists m, mn. split; [exact Hm|]. split; [exact Hmn|].
  unfold _softmax. rewrite Hs. simpl. f_equal.
  rewrite !map_map. apply map_ext. intros v. cbv zeta.
  rewrite map_map. reflexivity.
Qed.

(** The entries that [_softmax] hands to [np.exp] for the second vector of
    [two_logit_vectors] are [-50] and [-100]: the maximum subtracted is the
    [0] of the first vector and the rescaling is by [-100 / -400].
    Stabilised on its own, the vector would give [0] and [-100]. *)
Lemma softmax_shift_not_per_vector :
  result_map (map (map Qred)) (softmax_shift (-100) two_logit_vectors)
    = Ok [[0; 0]; [-50; -100]] /\
  map (fun v => result_map (map Qred) (stabilize_vector (-100) v)) two_logit_vectors
    = [Ok [0; 0]; Ok [0; -100]].
Proof.
  split; vm_compute; reflexivity.
Qed.

Lemma softmax_stabilised_over_whole_array_witness :
  exists p, _softmax exp2 (-100) two_logit_vectors = Ok p.
Proof.
  destruct (softmax_stabilised_over_whole_array exp2 (-100) two_logit_vectors)
    as (m & mn & _ & _ & H).
  - simpl. discriminate.
  - eexists. exact H.
Defined.

(** ** The activation pass

    The lemmas on the values of the scores are stated in a section, for an
    exponential that is positive. *)

Lemma np_sum_cons (e : Q) (x : list Q) : np_sum (e :: x) = e + np_sum x.
Proof. reflexivity. Qed.

Lemma np_sum_nonneg (x : list Q) : Forall (fun e => 0 < e) x -> 0 <= np_sum x.
Proof.
  induction 1 as [|e x He _ IH]; [apply Qle_refl|].
  rewrite np_sum_cons. lra.
Qed.

Lemma np_sum_bounds_entry (x : list Q) :
  Forall (fun e => 0 < e) x -> Forall (fun e => e <= np_sum x) x.
Proof.
  induction 1 as [|e x He Hx IH]; constructor; rewrite np_sum_cons.
  - pose proof (np_sum_nonneg x Hx) as Hs. lra.
  - eapply Forall_impl; [exact IH|]. intros u Hu. simpl in Hu. lra.
Qed.

Lemma normalised_unit (ev : list Q) :
  Forall (fun e => 0 < e) ev ->
  Forall in_unit (map (fun e => e / np_sum ev) ev).
Proof.
  intros Hpos. apply Forall_map.
  pose proof (np_sum_bounds_entry ev Hpos) as Hle.
  rewrite Forall_forall in Hpos, Hle. apply Forall_forall. intros e He.
  pose proof (Hpos e He). pose proof (Hle e He).
  apply unit_quotient; lra.
Qed.

Lemma in_unit_mult (s p : Q) : in_unit s -> in_unit p -> in_unit (s * p).
Proof.
  unfold in_unit. intros [Hs0 Hs1] [Hp0 Hp1]. split; nra.
Qed.

Lemma threshold_mask_masked (obj_thre s : Q) : masked obj_thre s (threshold_mask obj_thre s).
Proof.
  unfold masked, threshold_mask.
  destruct (Qlt_le_dec obj_thre s); split; intros; lra.
Qed.

Lemma threshold_mask_unit (obj_thre s : Q) : in_unit s -> in_unit (threshold_mask obj_thre s).
Proof.
  unfold in_unit, threshold_mask. intros [H0 H1].
  destruct (Qlt_le_dec obj_thre s); split; lra.
Qed.

(** Writing the channels from 5 on of a vector leaves nothing else in
    them, whatever the length of the vector. *)
Lemma drop_5_rewritten (v l : list Q) :
  length l = length (drop 5 v) -> drop 5 (take 5 v ++ l) = l.
Proof.
  intros Hl. rewrite length_drop in Hl.
  destruct (decide (5 <= length v)%nat) as [Hv|Hv].
  - apply drop_app_length'. rewrite length_take. lia.
  - assert (l = []) as -> by (apply nil_length_inv; lia).
    rewrite app_nil_r. apply drop_ge. rewrite length_take. lia.
Qed.

Lemma Forall_drop_5_rewritten (P : Q -> Prop) (v l : list Q) :
  Forall P l -> Forall P (drop 5 (take 5 v ++ l)).
Proof.
  intros Hl. rewrite drop_app. apply Forall_app. split.
  - rewrite drop_ge; [constructor|]. rewrite length_take. lia.
  - apply Forall_drop. exact Hl.
Qed.

Lemma act_objectness_rows (exp : Q -> Q) (a a1 : ndarray) :
  act_objectness exp a = (Ok tt, a1) ->
  shape a1 = shape a /\
  rows a1 = map (fun v => <[4%nat := _sigmoid exp (nth 4 v 0)]> v) (rows a).
Proof.
  unfold act_objectness, bind, get, raise, modify_rows.
  destruct (last_dim a <? 5)%nat; [discriminate|].
  intros [= <-]. split; reflexivity.
Qed.

Lemma act_classes_rows (exp : Q -> Q) (a a2 : ndarray) :
  act_classes exp a = (Ok tt, a2) ->
  exists p, _softmax exp (-100) (map (drop 5) (rows a)) = Ok p /\
    shape a2 = shape a /\
    rows a2 = zip_with (fun v pv => take 5 v ++ map (Qmult (nth 4 v 0)) pv) (rows a) p.
Proof.
  unfold act_classes, bind, get, lift, modify_rows.
  destruct (_softmax exp (-100) (map (drop 5) (rows a))) as [p|e]; [|discriminate].
  intros [= <-]. exists p. repeat split; reflexivity.
Qed.

Lemma act_threshold_scores (obj_thre : Q) (a : ndarray) :
  class_scores (snd (act_threshold obj_thre a))
  = map (map (threshold_mask obj_thre)) (class_scores a).
Proof.
  unfold act_threshold, modify_rows, class_scores. simpl.
  rewrite !map_map. apply map_ext. intros v.
  apply drop_5_rewritten. rewrite length_map. reflexivity.
Qed.

Section PositiveExp.

Variable exp : Q -> Q.
Hypothesis exp_pos : forall y, 0 < exp y.

Lemma sigmoid_unit (x : Q) : in_unit (_sigmoid exp x).
Proof.
  unfold _sigmoid. pose proof (exp_pos (- x)).
  apply unit_quotient; lra.
Qed.

Lemma softmax_unit (t : Q) (x p : list (list Q)) :
  _softmax exp t x = Ok p -> Forall (Forall in_unit) p.
Proof.
  unfold _softmax.
  destruct (softmax_shift t x) as [y|e]; simpl; [|discriminate].
  intros [= <-]. apply Forall_map, Forall_map, Forall_forall. intros v _.
  apply normalised_unit, Forall_map, Forall_forall. intros e _. apply exp_pos.
Qed.

Lemma objectness_unit (v : list Q) :
  in_unit (nth 4 (<[4%nat := _sigmoid exp (nth 4 v 0)]> v) 0).
Proof.
  destruct (decide (4 < length v)%nat) as [Hv|Hv].
  - rewrite (nth_lookup_Some _ _ _ (_sigmoid exp (nth 4 v 0))).
    + apply sigmoid_unit.
    + apply list_lookup_insert_eq. exact Hv.
  - rewrite nth_overflow by (rewrite length_insert; lia).
    split; lra.
Qed.

(** The class scores after lines 671-672 are in [[0,1]]. *)
Lemma act_classes_unit (a a1 a2 : ndarray) :
  act_objectness exp a = (Ok tt, a1) ->
  act_classes exp a1 = (Ok tt, a2) ->
  Forall (Forall in_unit) (class_scores a2).
Proof.
  intros H1 H2.
  apply act_objectness_rows in H1 as [_ Hr1].
  apply act_classes_rows in H2 as (p & Hp & _ & Hr2).
  unfold class_scores. rewrite Hr2. apply Forall_map.
  eapply Forall_zip_with_snd; [|exact (softmax_unit _ _ _ Hp)].
  rewrite Hr1. apply Forall_map, Forall_forall. intros v _ pv Hpv. simpl.
  apply Forall_drop_5_rewritten, Forall_map.
  eapply Forall_impl; [exact Hpv|]. intros s Hs. simpl.
  apply in_unit_mult; [apply objectness_unit|exact Hs].
Qed.

(** C4, as the code has it: when the activation pass returns, every class
    score is in [[0,1]], before the mask and after it, and the mask has put
    [0] exactly where the score was not above [obj_thre] (less than it or
    equal to it) and left every other score as it was. *)
Theorem activation_scores (obj_thre : Q) (a a' : ndarray) :
  activate exp obj_thre a = (Ok tt, a') ->
  exists a2,
    (act_objectness exp ;;; act_classes exp) a = (Ok tt, a2) /\
    Forall (Forall in_unit) (class_scores a2) /\
    Forall (Forall in_unit) (class_scores a') /\
    Forall2 (Forall2 (masked obj_thre)) (class_scores a2) (class_scores a').
Proof.
  unfold activate, bind.
  destruct (act_objectness exp a) as [[[]|e] a1] eqn:E1; [|discriminate].
  destruct (act_classes exp a1) as [[[]|e] a2] eqn:E2; [|discriminate].
  intros H3. exists a2. split; [reflexivity|].
  pose proof (act_classes_unit a a1 a2 E1 E2) as Hunit.
  pose proof (act_threshold_scores obj_thre a2) as Hs.
  rewrite H3 in Hs. simpl in Hs. rewrite Hs.
  split; [exact Hunit|]. split.
  - apply Forall_map. eapply Forall_impl; [exact Hunit|]. intros v Hv. simpl.
    apply Forall_map. eapply Forall_impl; [exact Hv|]. intros s.
    apply threshold_mask_unit.
  - apply Forall2_fmap_r, Forall_Forall2_diag, Forall_forall. intros v _.
    apply Forall2_fmap_r, Forall_Forall2_diag, Forall_forall. intros s _.
    apply threshold_mask_masked.
Qed.

End PositiveExp.

Lemma activation_scores_witness :
  Forall (Forall in_unit) (class_scores (snd (activate exp2 (3 # 10) single_vector))).
Proof.
  destruct (activation_scores exp2 exp2_pos (3 # 10) single_vector
              (snd (activate exp2 (3 # 10) single_vector)))
    as (a2 & _ & _ & H & _).
  - vm_compute. reflexivity.
  - exact H.
Defined.

(** With [obj_thre = 1/2] the only class score of [single_vector] is
    [sigmoid(0) * 1 = 1/2] after line 672: it is not below the threshold,
    and line 673 makes it [0]. *)
Lemma threshold_zeroes_score_equal_to_threshold :
  fst (activate exp2 (1 # 2) single_vector) = Ok tt /\
  map (map Qred)
      (class_scores (snd ((act_objectness exp2 ;;; act_classes exp2) single_vector)))
    = [[1 # 2]] /\
  map (map Qred) (class_scores (snd (activate exp2 (1 # 2) single_vector)))
    = [[0]].
Proof.
  repeat split; vm_compute; reflexivity.
Qed.

(** ** Loops *)

Lemma for_append_reads_only {A B : Type} (l : list A) (body : A -> M (list B)) :
  (forall x, reads_only (body x)) -> reads_only (for_append l body).
Proof.
  intros Hbody. induction l as [|x l IH]; intros a r a'; simpl.
  - unfold ret. intros [= _ <-]. reflexivity.
  - unfold bind. destruct (body x a) as [[bs|e] a1] eqn:E1.
    + apply Hbody in E1 as ->.
      destruct (for_append l body a) as [[bs'|e] a2] eqn:E2.
      * apply IH in E2 as ->. unfold ret. intros [= _ <-]. reflexivity.
      * apply IH in E2 as ->. intros [= _ <-]. reflexivity.
    + apply Hbody in E1 as ->. intros [= _ <-]. reflexivity.
Qed.

(** What a loop of appends returns is the concatenation, in iteration
    order, of what its body returned at each element. *)
Lemma for_append_concat {A B : Type} (l : list A) (body : A -> M (list B))
    (a a' : ndarray) (bs : list B) :
  (forall x, reads_only (body x)) ->
  for_append l body a = (Ok bs, a') ->
  exists bss, Forall2 (fun x b => body x a = (Ok b, a)) l bss /\ bs = concat bss.
Proof.
  intros Hbody. revert bs a'. induction l as [|x l IH]; intros bs a'; simpl.
  - unfold ret. intros [= <- _]. exists []. split; [constructor|reflexivity].
  - unfold bind. destruct (body x a) as [[b|e] a1] eqn:E1; [|discriminate].
    pose proof (Hbody x _ _ _ E1) as ->.
    destruct (for_append l body a) as [[bs'|e] a2] eqn:E2; [|discriminate].
    unfold ret. intros [= <- _].
    destruct (IH bs' a2 eq_refl) as (bss & HF & ->).
    exists (b :: bss). split; [constructor; assumption|reflexivity].
Qed.

Lemma for_append_elem_of {A B : Type} (l : list A) (body : A -> M (list B))
    (a a' : ndarray) (bs : list B) (y : B) :
  (forall x, reads_only (body x)) ->
  for_append l body a = (Ok bs, a') ->
  y ∈ bs ->
  exists x b, x ∈ l /\ body x a = (Ok b, a) /\ y ∈ b.
Proof.
  intros Hbody Hrun Hy.
  destruct (for_append_concat l body a a' bs Hbody Hrun) as (bss & HF & ->).
  apply list_elem_of_In, in_concat in Hy as (b & Hb & Hyb).
  apply list_elem_of_In in Hb, Hyb.
  apply list_elem_of_lookup in Hb as (i & Hi).
  destruct (Forall2_lookup_r _ _ _ _ _ HF Hi) as (x & Hx & Hbx).
  exists x, b. split; [|split; assumption].
  eapply list_elem_of_lookup_2. exact Hx.
Qed.

(** ** Candidate boxes *)

Lemma candidate_reads_only (exp : Q -> Q) (anchors : list Q) (fm_height fm_width : Z)
    (grid_h grid_w row col b : nat) :
  reads_only (candidate exp anchors fm_height fm_width grid_h grid_w row col b).
Proof.
  intros a r a'. unfold candidate, bind, get, lift, ret, raise.
  destruct (index3 (shape a) row col b) as [i|e]; [|same_array].
  destruct (drop 3 (shape a)) as [|d3 [|d4 rest]].
  - same_array.
  - destruct (Qlt_le_dec 0 _); [|same_array].
    destruct (decode_box _ _ _ _ _ _ _ _ _ _ _); same_array.
  - destruct (Qlt_le_dec 0 _); [|same_array].
    destruct (anchors_get anchors (2 * b + 0)); [|same_array].
    destruct (anchors_get anchors (2 * b + 1)); same_array.
Qed.

Lemma build_boxes_reads_only (exp : Q -> Q) (anchors : list Q) (fm_height fm_width : Z)
    (grid_h grid_w nb_box : nat) :
  reads_only (build_boxes exp anchors fm_height fm_width grid_h grid_w nb_box).
Proof.
  unfold build_boxes.
  apply for_append_reads_only. intros row.
  apply for_append_reads_only. intros col.
  apply for_append_reads_only. intros b.
  apply candidate_reads_only.
Qed.

(** A candidate is appended only on a four-dimensional array, for a cell
    whose class scores have a positive sum, and it is the box of
    [decode_box]. *)
Lemma candidate_emits (exp : Q -> Q) (anchors : list Q) (fm_height fm_width : Z)
    (grid_h grid_w row col b : nat) (a a' : ndarray) (bs : list BoundBox) (box : BoundBox) :
  candidate exp anchors fm_height fm_width grid_h grid_w row col b a = (Ok bs, a') ->
  box ∈ bs ->
  exists r,
    bs = [box] /\
    index3 (shape a) row col b = Ok r /\
    length (drop 3 (shape a)) = 1%nat /\
    0 < np_sum (drop 5 (nth r (rows a) [])) /\
    decode_box exp anchors fm_height fm_width grid_h grid_w row col b r (nth r (rows a) [])
      = Ok box.
Proof.
  unfold candidate, bind, get, lift, ret, raise.
  destruct (index3 (shape a) row col b) as [r|e]; [|discriminate].
  destruct (drop 3 (shape a)) as [|d3 [|d4 rest]].
  - discriminate.
  - destruct (Qlt_le_dec 0 _) as [Hsum|Hsum].
    + destruct (decode_box _ _ _ _ _ _ _ _ _ _ _) as [box'|e] eqn:E; [|discriminate].
      intros [= <- _] Hin. apply list_elem_of_singleton in Hin as ->.
      exists r. repeat split; [exact Hsum|exact E].
    + intros [= <- _] Hin. inversion Hin.
  - destruct (Qlt_le_dec 0 _).
    + destruct (anchors_get anchors (2 * b + 0)); [|discriminate].
      destruct (anchors_get anchors (2 * b + 1)); discriminate.
    + intros [= <- _] Hin. inversion Hin.
Qed.

(** Every box of [build_boxes] comes from one iteration of the loops. *)
Lemma build_boxes_elem_of (exp : Q -> Q) (anchors : list Q) (fm_height fm_width : Z)
    (grid_h grid_w nb_box : nat) (a a' : ndarray) (boxes : list BoundBox) (box : BoundBox) :
  build_boxes exp anchors fm_height fm_width grid_h grid_w nb_box a = (Ok boxes, a') ->
  box ∈ boxes ->
  exists row col b bs,
    (row < grid_h)%nat /\ (col < grid_w)%nat /\ (b < nb_box)%nat /\
    candidate exp anchors fm_height fm_width grid_h grid_w row col b a = (Ok bs, a) /\
    box ∈ bs.
Proof.
  unfold build_boxes. intros Hrun Hin.
  eapply for_append_elem_of in Hrun as (row & bs1 & Hrow & Hrun & Hin1); [|clear|exact Hin].
  2: { intros row. apply for_append_reads_only. intros col.
       apply for_append_reads_only. intros b. apply candidate_reads_only. }
  eapply for_append_elem_of in Hrun as (col & bs2 & Hcol & Hrun & Hin2); [|clear|exact Hin1].
  2: { intros col. apply for_append_reads_only. intros b. apply candidate_reads_only. }
  eapply for_append_elem_of in Hrun as (b & bs3 & Hb & Hrun & Hin3); [|clear|exact Hin2].
  2: { intros b. apply candidate_reads_only. }
  apply elem_of_seq in Hrow, Hcol, Hb.
  exists row, col, b, bs3. repeat split; try lia; assumption.
Qed.

(** [int] drops the fractional part: it is the floor of a non-negative
    number and the ceiling of a non-positive one. *)
Lemma int_truncates (x : Q) :
  (0 <= x -> int x = Qfloor x) /\ (x <= 0 -> int x = Qceiling x).
Proof.
  destruct x as [n d]. unfold int, Qfloor, Qceiling, Qle. simpl. split; intros H.
  - apply Z.quot_div_nonneg; lia.
  - rewrite <- (Z.opp_involutive n) at 1. rewrite Z.quot_opp_l by lia.
    f_equal. apply Z.quot_div_nonneg; lia.
Qed.

(** C3, as the code has it: the corners of every box that the loops append
    are those of the box in image units, scaled by the size of the feature
    map, truncated toward zero by [int] and clipped, [xmin] against
    [fm_height]. *)
Theorem emitted_box_corners (exp : Q -> Q) (anchors : list Q) (fm_height fm_width : Z)
    (grid_h grid_w nb_box : nat) (a a' : ndarray) (boxes : list BoundBox) :
  build_boxes exp anchors fm_height fm_width grid_h grid_w nb_box a = (Ok boxes, a') ->
  Forall (fun box =>
    exists row col b r ib,
      (row < grid_h)%nat /\ (col < grid_w)%nat /\ (b < nb_box)%nat /\
      index3 (shape a) row col b = Ok r /\
      image_box exp anchors grid_h grid_w row col b (nth r (rows a) []) = Ok ib /\
      xmin box = Z.min (int (bxmin ib * inject_Z fm_width)) fm_height /\
      ymin box = Z.min (int (bymin ib * inject_Z fm_height)) fm_height /\
      xmax box = Z.min (int (bxmax ib * inject_Z fm_width)) fm_width /\
      ymax box = Z.min (int (bymax ib * inject_Z fm_height)) fm_height /\
      classes box = r) boxes.
Proof.
  intros Hrun. apply Forall_forall. intros box Hin.
  destruct (build_boxes_elem_of _ _ _ _ _ _ _ _ _ _ _ Hrun Hin)
    as (row & col & b & bs & Hrow & Hcol & Hb & Hcand & Hbs).
  destruct (candidate_emits _ _ _ _ _ _ _ _ _ _ _ _ _ Hcand Hbs)
    as (r & _ & Hidx & _ & _ & Hdec).
  unfold decode_box in Hdec.
  destruct (image_box exp anchors grid_h grid_w row col b (nth r (rows a) []))
    as [ib|e] eqn:Eib; [|discriminate].
  simpl in Hdec. injection Hdec as <-.
  exists row, col, b, r, ib. repeat split; try assumption.
Qed.

Lemma emitted_box_corners_witness :
  Forall (fun box => exists ib,
            xmin box = Z.min (int (bxmin ib * inject_Z 28)) 28 /\
            xmax box = Z.min (int (bxmax ib * inject_Z 28)) 28)
         [new_BoundBox 1 1 2 2 (1 # 2) 0].
Proof.
  eapply Forall_impl.
  - apply (emitted_box_corners exp2 (replicate 12 (1 # 5)) 28 28 6 6 6
             (snd (activate exp2 (3 # 10) one_box_cube))
             (snd (activate exp2 (3 # 10) one_box_cube))).
    vm_compute. reflexivity.
  - intros box (row & col & b & r & ib & _ & _ & _ & _ & _ & Hxmin & _ & Hxmax & _).
    exists ib. split; assumption.
Defined.

(** With anchors of [0.2] the one candidate of [one_box_cube] spans
    [1.87 .. 2.8] feature-map pixels on both axes.  [batch_decode_yolo]
    returns the corners [(1, 1, 2, 2)]; rounding gives [(2, 2, 3, 3)]. *)
Lemma corners_are_truncated_not_rounded :
  result_map (map corners)
    (fst (batch_decode_yolo argsort_stable exp2 (replicate 12 (1 # 5)) 1 (28, 28)%Z (3 # 10)
            (3 # 10) one_box_cube))
    = Ok [(1, 1, 2, 2)%Z] /\
  result_map (fun ib => corners (rescale_box_rounding 28 28 ib (1 # 2) 0))
    (image_box exp2 (replicate 12 (1 # 5)) 6 6 0 0 0 (nth 0 (rows one_box_cube) []))
    = Ok (2, 2, 3, 3)%Z.
Proof.
  split; vm_compute; reflexivity.
Qed.

(** ** The order of suppression *)

Lemma argsort_insert_Permutation (x : list Q) (i : nat) (l : list nat) :
  argsort_insert x i l ≡ₚ i :: l.
Proof.
  induction l as [|j l IH]; simpl; [reflexivity|].
  destruct (Qle_bool (nth i x 0) (nth j x 0)); [reflexivity|].
  rewrite IH. apply Permutation_swap.
Qed.

Lemma argsort_stable_from_Permutation (x : list Q) (s n : nat) :
  foldr (argsort_insert x) [] (seq s n) ≡ₚ seq s n.
Proof.
  revert s. induction n as [|n IH]; intros s; simpl; [reflexivity|].
  rewrite argsort_insert_Permutation, IH. reflexivity.
Qed.

Lemma argsort_stable_Permutation (x : list Q) : argsort_stable x ≡ₚ seq 0 (length x).
Proof. apply argsort_stable_from_Permutation. Qed.

Lemma stable_before_le (x : list Q) (i j : nat) :
  stable_before x i j -> nth i x 0 <= nth j x 0.
Proof. intros [H | [H _]]; lra. Qed.

Lemma argsort_insert_sorted (x : list Q) (i : nat) (l : list nat) :
  Forall (fun j => (i < j)%nat) l ->
  StronglySorted (stable_before x) l ->
  StronglySorted (stable_before x) (argsort_insert x i l).
Proof.
  intros Hlt Hs. induction Hs as [|j l Hs IH Hj]; simpl.
  - repeat constructor.
  - apply Forall_cons in Hlt as [Hij Hlt].
    destruct (Qle_bool (nth i x 0) (nth j x 0)) eqn:E.
    + apply Qle_bool_iff in E. constructor; [constructor; assumption|].
      constructor.
      * destruct (Qlt_le_dec (nth i x 0) (nth j x 0)); [left; assumption|].
        right. split; [lra|exact Hij].
      * rewrite Forall_forall in Hj, Hlt. apply Forall_forall. intros k Hk.
        pose proof (stable_before_le x j k (Hj k Hk)).
        destruct (Qlt_le_dec (nth i x 0) (nth k x 0)); [left; assumption|].
        right. split; [lra|exact (Hlt k Hk)].
    + assert (Hji : nth j x 0 < nth i x 0).
      { apply Qnot_le_lt. intros Hle. apply Qle_bool_iff in Hle. congruence. }
      constructor; [exact (IH Hlt)|].
      rewrite argsort_insert_Permutation. constructor; [left; exact Hji|exact Hj].
Qed.

Lemma argsort_stable_from_sorted (x : list Q) (s n : nat) :
  StronglySorted (stable_before x) (foldr (argsort_insert x) [] (seq s n)).
Proof.
  revert s. induction n as [|n IH]; intros s; simpl; [constructor|].
  apply argsort_insert_sorted; [|apply IH].
  rewrite argsort_stable_from_Permutation. apply Forall_forall.
  intros j Hj. apply elem_of_seq in Hj. lia.
Qed.

(** [argsort_stable]: ascending, equal values in their original order. *)
Lemma argsort_stable_sorted (x : list Q) :
  StronglySorted (stable_before x) (argsort_stable x).
Proof. apply argsort_stable_from_sorted. Qed.

Lemma StronglySorted_impl {A : Type} (R R' : A -> A -> Prop) (l : list A) :
  (forall u v, R u v -> R' u v) -> StronglySorted R l -> StronglySorted R' l.
Proof.
  intros HR. induction 1 as [|u l Hs IH Hu]; constructor; [exact IH|].
  eapply Forall_impl; [exact Hu|]. intros v. apply HR.
Qed.

Lemma argsort_stable_sorts : sorts argsort_stable.
Proof.
  intros x. split; [apply argsort_stable_Permutation|].
  eapply StronglySorted_impl; [|apply argsort_stable_sorted].
  intros i j. apply stable_before_le.
Qed.

Lemma argsort_insert_after_Permutation (x : list Q) (i : nat) (l : list nat) :
  argsort_insert_after x i l ≡ₚ i :: l.
Proof.
  induction l as [|j l IH]; simpl; [reflexivity|].
  destruct (Qle_bool (nth j x 0) (nth i x 0)); [|reflexivity].
  rewrite IH. apply Permutation_swap.
Qed.

Lemma argsort_insert_after_sorted (x : list Q) (i : nat) (l : list nat) :
  StronglySorted (ascending x) l ->
  StronglySorted (ascending x) (argsort_insert_after x i l).
Proof.
  intros Hs. induction Hs as [|j l Hs IH Hj]; simpl.
  - repeat constructor.
  - destruct (Qle_bool (nth j x 0) (nth i x 0)) eqn:E.
    + apply Qle_bool_iff in E. constructor; [exact IH|].
      rewrite argsort_insert_after_Permutation. constructor; assumption.
    + assert (Hij : nth i x 0 < nth j x 0).
      { apply Qnot_le_lt. intros Hle. apply Qle_bool_iff in Hle. congruence. }
      constructor; [constructor; assumption|].
      constructor; [unfold ascending; lra|].
      eapply Forall_impl; [exact Hj|]. unfold ascending. intros k Hk. lra.
Qed.

Lemma argsort_ties_reversed_sorts : sorts argsort_ties_reversed.
Proof.
  intros x. unfold argsort_ties_reversed. generalize 0%nat as s.
  induction (length x) as [|n IH]; intros s; simpl.
  - split; [reflexivity|constructor].
  - destruct (IH (S s)) as [Hperm Hsorted]. split.
    + rewrite argsort_insert_after_Permutation, Hperm. reflexivity.
    + apply argsort_insert_after_sorted. exact Hsorted.
Qed.

Lemma StronglySorted_lookup_lt {A : Type} (R : A -> A -> Prop) (l : list A)
    (p q : nat) (u v : A) :
  StronglySorted R l -> (p < q)%nat -> l !! p = Some u -> l !! q = Some v -> R u v.
Proof.
  intros Hs. revert p q. induction Hs as [|w l Hs IH Hw]; intros p q Hpq Hp Hq.
  - discriminate.
  - destruct q as [|q]; [lia|]. simpl in Hq. destruct p as [|p].
    + injection Hp as <-. rewrite Forall_forall in Hw. apply Hw.
      eapply list_elem_of_lookup_2. exact Hq.
    + simpl in Hp. apply (IH p q); [lia|assumption..].
Qed.

Lemma sorted_indices_of_Permutation (argsort : list Q -> list nat) (col : list Q) :
  sorts argsort -> sorted_indices_of argsort col ≡ₚ seq 0 (length col).
Proof.
  intros Hsorts. unfold sorted_indices_of. rewrite reverse_Permutation. apply Hsorts.
Qed.

Lemma sorted_indices_of_descending (argsort : list Q -> list nat) (col : list Q)
    (p q i j : nat) :
  sorts argsort ->
  (p < q)%nat ->
  sorted_indices_of argsort col !! p = Some i ->
  sorted_indices_of argsort col !! q = Some j ->
  nth j col 0 <= nth i col 0.
Proof.
  intros Hsorts Hpq Hp Hq. unfold sorted_indices_of in Hp, Hq.
  apply reverse_lookup_Some in Hp as [Hp Hp'], Hq as [Hq Hq'].
  destruct (Hsorts col) as [_ Hsorted].
  eapply (StronglySorted_lookup_lt _ _ _ _ _ _ Hsorted); [|exact Hq|exact Hp]. lia.
Qed.

(** C6, as the code has it: whatever order [np.argsort] gives to equal
    values, [sorted_indices] lists every candidate once, in descending
    order of its score for the class. *)
Theorem sorted_indices_descending (argsort : list Q -> list nat) (col : list Q) :
  sorts argsort ->
  sorted_indices_of argsort col ≡ₚ seq 0 (length col) /\
  forall (p q i j : nat),
    (p < q)%nat ->
    sorted_indices_of argsort col !! p = Some i ->
    sorted_indices_of argsort col !! q = Some j ->
    nth j col 0 <= nth i col 0.
Proof.
  intros Hsorts. split.
  - unfold sorted_indices_of. rewrite reverse_Permutation. apply Hsorts.
  - intros p q i j Hpq Hp Hq. unfold sorted_indices_of in Hp, Hq.
    apply reverse_lookup_Some in Hp as [Hp Hp'], Hq as [Hq Hq'].
    destruct (Hsorts col) as [_ Hsorted]. unfold ascending in Hsorted.
    apply (StronglySorted_lookup_lt _ _ (length (argsort col) - S q)
             (length (argsort col) - S p) j i Hsorted); [lia|exact Hq|exact Hp].
Qed.

Lemma sorted_indices_descending_witness :
  sorted_indices_of argsort_stable [1 # 10; 1 # 2; 3 # 10] ≡ₚ seq 0 3 /\
  forall (p q i j : nat),
    (p < q)%nat ->
    sorted_indices_of argsort_stable [1 # 10; 1 # 2; 3 # 10] !! p = Some i ->
    sorted_indices_of argsort_stable [1 # 10; 1 # 2; 3 # 10] !! q = Some j ->
    nth j [1 # 10; 1 # 2; 3 # 10] 0 <= nth i [1 # 10; 1 # 2; 3 # 10] 0.
Proof.
  apply (sorted_indices_descending argsort_stable [1 # 10; 1 # 2; 3 # 10]).
  exact argsort_stable_sorts.
Defined.

(** The order of two candidates with the same score [1/2] is not fixed by
    the code.  Both [argsort_stable] and [argsort_ties_reversed] list the
    positions in ascending order of value.  Under the first, which keeps
    equal values in their original order, the reversal ranks the candidate
    built last first: the order is not the order of construction.  Under
    the second the candidate built first is ranked first.  In
    [two_box_cube] the two candidates are the same box, and the one that
    [batch_decode_yolo] returns is the second one under the first sort and
    the first one under the second. *)
Lemma equal_scores_order_not_fixed :
  sorts argsort_stable /\ sorts argsort_ties_reversed /\
  sorted_indices_of argsort_stable [1 # 2; 1 # 2] = [1; 0]%nat /\
  sorted_indices_of argsort_ties_reversed [1 # 2; 1 # 2] = [0; 1]%nat /\
  result_map (map classes)
    (fst (batch_decode_yolo argsort_stable exp2 (replicate 12 1) 1 (28, 28)%Z
            (3 # 10) (3 # 10) two_box_cube))
    = Ok [1%nat] /\
  result_map (map classes)
    (fst (batch_decode_yolo argsort_ties_reversed exp2 (replicate 12 1) 1 (28, 28)%Z
            (3 # 10) (3 # 10) two_box_cube))
    = Ok [0%nat].
Proof.
  split; [exact argsort_stable_sorts|]. split; [exact argsort_ties_reversed_sorts|].
  repeat split; vm_compute; reflexivity.
Qed.

(** ** Batched arrays *)

Lemma activate_shape (exp : Q -> Q) (obj_thre : Q) (a a' : ndarray) (r : result unit) :
  activate exp obj_thre a = (r, a') -> shape a' = shape a.
Proof.
  unfold activate, act_objectness, act_classes, act_threshold, bind, get, lift,
    raise, modify_rows.
  destruct (last_dim a <? 5)%nat; [same_array|]. simpl.
  destruct (_softmax exp (-100) _); simpl; same_array.
Qed.

Lemma for_append_nothing {A B : Type} (l : list A) (body : A -> M (list B)) (a : ndarray) :
  (forall x, body x a = (Ok [], a) \/ exists e, body x a = (Raise e, a)) ->
  for_append l body a = (Ok [], a) \/ exists e, for_append l body a = (Raise e, a).
Proof.
  intros Hbody. induction l as [|x l IH]; simpl; [left; reflexivity|].
  unfold bind. destruct (Hbody x) as [-> | [e ->]]; [|right; exists e; reflexivity].
  destruct IH as [-> | [e ->]]; [left; reflexivity|right; exists e; reflexivity].
Qed.

Lemma for_each_nothing {A : Type} (l : list A) (body : A -> M unit) (a : ndarray) :
  (forall x, body x a = (Ok tt, a)) -> for_each l body a = (Ok tt, a).
Proof.
  intros Hbody. induction l as [|x l IH]; simpl; [reflexivity|].
  unfold bind. rewrite Hbody. exact IH.
Qed.

(** [batch_decode_yolo] step by step. *)
Lemma batch_decode_yolo_run (argsort : list Q -> list nat) (exp : Q -> Q) (anchors : list Q)
    (nb_class : nat)
    (feature_map_shape : Z * Z) (obj_thre nms_thre : Q) (a : ndarray) :
  batch_decode_yolo argsort exp anchors nb_class feature_map_shape obj_thre nms_thre a =
  match shape a with
  | batch :: grid_h :: grid_w :: nb_box :: _ =>
      match activate exp obj_thre a with
      | (Ok _, a1) =>
          match build_boxes exp anchors (fst feature_map_shape) (snd feature_map_shape)
                  grid_h grid_w nb_box a1 with
          | (Ok boxes, a2) =>
              match suppress argsort boxes nb_class nms_thre a2 with
              | (Ok _, a3) => final_filter boxes obj_thre a3
              | (Raise e, a3) => (Raise e, a3)
              end
          | (Raise e, a2) => (Raise e, a2)
          end
      | (Raise e, a1) => (Raise e, a1)
      end
  | _ => (Raise ValueError, a)
  end.
Proof.
  unfold batch_decode_yolo, bind, get, raise.
  destruct (shape a) as [|batch [|grid_h [|grid_w [|nb_box sh]]]]; reflexivity.
Qed.

(** With more than four axes no iteration of the loops appends a box. *)
Lemma candidate_batched (exp : Q -> Q) (anchors : list Q) (fm_height fm_width : Z)
    (grid_h grid_w row col b : nat) (a : ndarray) (d3 d4 : nat) (rest : list nat) :
  drop 3 (shape a) = d3 :: d4 :: rest ->
  candidate exp anchors fm_height fm_width grid_h grid_w row col b a = (Ok [], a)
  \/ exists e,
      candidate exp anchors fm_height fm_width grid_h grid_w row col b a = (Raise e, a).
Proof.
  intros Hsh. unfold candidate, bind, get, lift, ret, raise. rewrite Hsh.
  destruct (index3 (shape a) row col b) as [r|e]; [|right; exists e; reflexivity].
  destruct (Qlt_le_dec 0 _); [|left; reflexivity]. right.
  destruct (anchors_get anchors (2 * b + 0)) as [?|e]; [|exists e; reflexivity].
  destruct (anchors_get anchors (2 * b + 1)) as [?|e]; [|exists e; reflexivity].
  exists TypeError. reflexivity.
Qed.

Lemma suppress_no_boxes (argsort : list Q -> list nat) (nb_class : nat) (nms_thre : Q)
    (a : ndarray) :
  sorts argsort -> suppress argsort [] nb_class nms_thre a = (Ok tt, a).
Proof.
  intros Hsorts. unfold suppress. apply for_each_nothing. intros k.
  unfold suppress_class, bind. cbn [class_column]. unfold ret.
  assert (sorted_indices_of argsort [] = []) as ->; [|reflexivity].
  apply Permutation_nil_r. apply (sorted_indices_of_Permutation argsort [] Hsorts).
Qed.

(** On an array with a batch axis, that is with five axes or more,
    [batch_decode_yolo] returns the empty list or raises: it returns no box,
    whatever the images hold. *)
Lemma batched_array_yields_no_box (argsort : list Q -> list nat) (exp : Q -> Q)
    (anchors : list Q) (nb_class : nat) (feature_map_shape : Z * Z) (obj_thre nms_thre : Q)
    (d0 d1 d2 d3 d4 : nat) (rest : list nat) (r : list (list Q)) :
  sorts argsort ->
  fst (batch_decode_yolo argsort exp anchors nb_class feature_map_shape obj_thre nms_thre
         (mk_ndarray (d0 :: d1 :: d2 :: d3 :: d4 :: rest) r)) = Ok []
  \/ exists e,
      fst (batch_decode_yolo argsort exp anchors nb_class feature_map_shape obj_thre nms_thre
             (mk_ndarray (d0 :: d1 :: d2 :: d3 :: d4 :: rest) r)) = Raise e.
Proof.
  intros Hsorts. rewrite batch_decode_yolo_run. cbn [shape].
  destruct (activate exp obj_thre _) as [[[]|e] a1] eqn:Eact;
    [|right; exists e; reflexivity].
  apply activate_shape in Eact. cbn [shape] in Eact.
  destruct (for_append_nothing (seq 0 d1)
              (fun row => for_append (seq 0 d2) (fun col =>
                 for_append (seq 0 d3) (fun b =>
                   candidate exp anchors (fst feature_map_shape) (snd feature_map_shape)
                     d1 d2 row col b))) a1) as [E | [e E]].
  { intros row. apply for_append_nothing. intros col.
    apply for_append_nothing. intros b.
    eapply candidate_batched. rewrite Eact. reflexivity. }
  - unfold build_boxes. rewrite E.
    rewrite suppress_no_boxes by exact Hsorts. left. reflexivity.
  - unfold build_boxes. rewrite E. right. exists e. reflexivity.
Qed.

(** C1 at a batch of two images: every cell of both images has the class
    score [1/2], above the threshold [0.3], after the activation pass, and
    what [batch_decode_yolo] returns is one list, and an empty one.  It is
    not what the same function does with the first image alone, where the
    loop on [row] runs past the batch axis and raises [IndexError]. *)
Theorem two_image_batch_decodes_to_one_empty_list :
  map (map Qred) (class_scores (snd (activate exp2 (3 # 10) two_image_batch)))
    = replicate 16 [1 # 2] /\
  fst (batch_decode_yolo argsort_stable exp2 (replicate 4 1) 1 (28, 28)%Z (3 # 10) (3 # 10)
         two_image_batch) = Ok [] /\
  fst (batch_decode_yolo argsort_stable exp2 (replicate 4 1) 1 (28, 28)%Z (3 # 10) (3 # 10)
         one_image_batch) = Raise IndexError.
Proof.
  repeat split; vm_compute; reflexivity.
Qed.

(** ** The configuration *)

Lemma anchors_get_app (anchors extra : list Q) (i : nat) (v : Q) :
  anchors_get anchors i = Ok v -> anchors_get (anchors ++ extra) i = Ok v.
Proof.
  unfold anchors_get. destruct (anchors !! i) as [w|] eqn:E; [|discriminate].
  intros [= <-]. rewrite (lookup_app_l_Some _ _ _ _ E). reflexivity.
Qed.

Lemma image_box_app (exp : Q -> Q) (anchors extra : list Q) (grid_h grid_w row col b : nat)
    (v : list Q) (ib : ImageBox) :
  image_box exp anchors grid_h grid_w row col b v = Ok ib ->
  image_box exp (anchors ++ extra) grid_h grid_w row col b v = Ok ib.
Proof.
  unfold image_box. cbv zeta.
  destruct (anchors_get anchors (2 * b + 0)) as [aw|] eqn:Ew; [|discriminate].
  destruct (anchors_get anchors (2 * b + 1)) as [ah|] eqn:Eh; [|discriminate].
  rewrite (anchors_get_app _ extra _ _ Ew), (anchors_get_app _ extra _ _ Eh).
  exact id.
Qed.

Lemma candidate_app (exp : Q -> Q) (anchors extra : list Q) (fm_height fm_width : Z)
    (grid_h grid_w row col b : nat) (a a' : ndarray) (bs : list BoundBox) :
  candidate exp anchors fm_height fm_width grid_h grid_w row col b a = (Ok bs, a') ->
  candidate exp (anchors ++ extra) fm_height fm_width grid_h grid_w row col b a = (Ok bs, a').
Proof.
  unfold candidate, bind, get, lift, ret, raise.
  destruct (index3 (shape a) row col b) as [r|e]; [|discriminate].
  destruct (drop 3 (shape a)) as [|d3 [|d4 rest]]; [discriminate| |].
  - destruct (Qlt_le_dec 0 _); [|exact id].
    unfold decode_box.
    destruct (image_box exp anchors _ _ _ _ _ _) as [ib|e] eqn:E; [|discriminate].
    rewrite (image_box_app _ _ extra _ _ _ _ _ _ _ E). exact id.
  - destruct (Qlt_le_dec 0 _); [|exact id].
    destruct (anchors_get anchors (2 * b + 0)); [|discriminate].
    destruct (anchors_get anchors (2 * b + 1)); discriminate.
Qed.

Lemma for_append_ext_Ok {A B : Type} (l : list A) (body1 body2 : A -> M (list B))
    (a a' : ndarray) (bs : list B) :
  (forall x a a' bs, body1 x a = (Ok bs, a') -> body2 x a = (Ok bs, a')) ->
  for_append l body1 a = (Ok bs, a') -> for_append l body2 a = (Ok bs, a').
Proof.
  intros Hbody. revert a a' bs. induction l as [|x l IH]; intros a a' bs; simpl;
    [exact id|].
  unfold bind.
  destruct (body1 x a) as [[b1|e] a1] eqn:E1; [|discriminate].
  rewrite (Hbody _ _ _ _ E1).
  destruct (for_append l body1 a1) as [[b2|e] a2] eqn:E2; [|discriminate].
  rewrite (IH _ _ _ E2). exact id.
Qed.

Lemma build_boxes_app (exp : Q -> Q) (anchors extra : list Q) (fm_height fm_width : Z)
    (grid_h grid_w nb_box : nat) (a a' : ndarray) (boxes : list BoundBox) :
  build_boxes exp anchors fm_height fm_width grid_h grid_w nb_box a = (Ok boxes, a') ->
  build_boxes exp (anchors ++ extra) fm_height fm_width grid_h grid_w nb_box a
    = (Ok boxes, a').
Proof.
  unfold build_boxes. apply for_append_ext_Ok. intros row a0 a0' bs0.
  apply for_append_ext_Ok. intros col a1 a1' bs1.
  apply for_append_ext_Ok. intros b a2 a2' bs2.
  apply candidate_app.
Qed.

(** C8, as the code has it: nothing compares the length of [anchors] with
    the number of anchor slots.  Whenever a call returns a list of boxes, the
    call with any entries appended to [anchors] returns the same list and
    leaves the same array. *)
Theorem anchors_length_is_not_checked (argsort : list Q -> list nat) (exp : Q -> Q)
    (anchors extra : list Q) (nb_class : nat) (feature_map_shape : Z * Z)
    (obj_thre nms_thre : Q) (a a' : ndarray) (boxes : list BoundBox) :
  batch_decode_yolo argsort exp anchors nb_class feature_map_shape obj_thre nms_thre a
    = (Ok boxes, a') ->
  batch_decode_yolo argsort exp (anchors ++ extra) nb_class feature_map_shape obj_thre nms_thre a
    = (Ok boxes, a').
Proof.
  rewrite !batch_decode_yolo_run.
  destruct (shape a) as [|batch [|grid_h [|grid_w [|nb_box sh]]]]; try exact id.
  destruct (activate exp obj_thre a) as [[[]|e] a1]; [|exact id].
  destruct (build_boxes exp anchors _ _ _ _ _ a1) as [[bs|e] a2] eqn:E; [|discriminate].
  rewrite (build_boxes_app _ _ extra _ _ _ _ _ _ _ _ E). exact id.
Qed.

Lemma anchors_length_is_not_checked_witness :
  batch_decode_yolo argsort_stable exp2 (replicate 12 1 ++ [7; 7; 7]) 1 (28, 28)%Z (3 # 10) (3 # 10)
    one_box_cube
  = batch_decode_yolo argsort_stable exp2 (replicate 12 1) 1 (28, 28)%Z (3 # 10) (3 # 10)
      one_box_cube.
Proof.
  rewrite (anchors_length_is_not_checked argsort_stable exp2 (replicate 12 1) [7; 7; 7] 1 (28, 28)%Z
             (3 # 10) (3 # 10) one_box_cube
             (snd (batch_decode_yolo argsort_stable exp2 (replicate 12 1) 1 (28, 28)%Z (3 # 10)
                     (3 # 10) one_box_cube))
             [mkBoundBox 0 0 4 4 (1 # 2) 0 0 (1 # 2)]).
  - vm_compute. reflexivity.
  - vm_compute. reflexivity.
Defined.

(** No anchors at all and the thresholds [2] and [-1]: the call returns the
    empty list.  No anchors and the thresholds [0.3]: the call raises
    [IndexError] at the one candidate, from inside the loops, and the array
    it leaves has already been overwritten by the activation pass (the class
    score of the first vector, [0] in [one_box_cube], is [1/2]). *)
Lemma configuration_is_not_validated :
  fst (batch_decode_yolo argsort_stable exp2 [] 1 (28, 28)%Z 2 (-1) one_box_cube) = Ok [] /\
  fst (batch_decode_yolo argsort_stable exp2 [] 1 (28, 28)%Z (3 # 10) (3 # 10) one_box_cube)
    = Raise IndexError /\
  class_scores (snd (batch_decode_yolo argsort_stable exp2 [] 1 (28, 28)%Z (3 # 10) (3 # 10)
                       one_box_cube)) !! 0%nat
    = Some [1 # 2].
Proof.
  repeat split; vm_compute; reflexivity.
Qed.

(** ** Scores read and written through the views *)

Lemma classes_get_run (box : BoundBox) (k : nat) (a : ndarray) :
  classes_get box k a =
  match score_at a (classes box) k with
  | Some s => (Ok s, a)
  | None => (Raise IndexError, a)
  end.
Proof.
  unfold classes_get, score_at. destruct (rows a !! classes box) as [v|]; [|reflexivity].
  rewrite lookup_drop. reflexivity.
Qed.

Lemma classes_get_reads_only (box : BoundBox) (k : nat) : reads_only (classes_get box k).
Proof.
  intros a r a'. rewrite classes_get_run.
  destruct (score_at a (classes box) k); same_array.
Qed.

Lemma zeroes_refl (k : nat) (P : nat -> Prop) (a : ndarray) : zeroes k P a a.
Proof.
  split; [reflexivity|]. split; [reflexivity|].
  intros r v v' Hv Hv'. rewrite Hv in Hv'. injection Hv' as <-.
  split; [reflexivity|]. intros n. left. reflexivity.
Qed.

Lemma zeroes_trans (k : nat) (P : nat -> Prop) (a a1 a2 : ndarray) :
  zeroes k P a a1 -> zeroes k P a1 a2 -> zeroes k P a a2.
Proof.
  intros (Hs1 & Hl1 & H1) (Hs2 & Hl2 & H2).
  split; [congruence|]. split; [congruence|].
  intros r v v2 Hv Hv2.
  destruct (rows a1 !! r) as [v1|] eqn:Hv1.
  - destruct (H1 r v v1 Hv Hv1) as [Hlen1 Hn1].
    destruct (H2 r v1 v2 Hv1 Hv2) as [Hlen2 Hn2].
    split; [congruence|]. intros n.
    destruct (Hn2 n) as [E2 | Hz]; [|right; exact Hz].
    rewrite E2. destruct (Hn1 n) as [E1 | Hz]; [left; exact E1|right; exact Hz].
  - apply lookup_ge_None in Hv1. apply lookup_lt_Some in Hv. lia.
Qed.

Lemma zeroes_weaken (k : nat) (P P' : nat -> Prop) (a a' : ndarray) :
  (forall r, P r -> P' r) -> zeroes k P a a' -> zeroes k P' a a'.
Proof.
  intros HP (Hs & Hl & H). split; [exact Hs|]. split; [exact Hl|].
  intros r v v' Hv Hv'. destruct (H r v v' Hv Hv') as [Hlen Hn].
  split; [exact Hlen|]. intros n.
  destruct (Hn n) as [E | (En & Hr & Hz)]; [left; exact E|].
  right. split; [exact En|]. split; [apply HP; exact Hr|exact Hz].
Qed.

(** What [zeroes] says of the scores. *)
Lemma zeroes_score_at (k : nat) (P : nat -> Prop) (a a' : ndarray) (r k' : nat) :
  zeroes k P a a' ->
  score_at a' r k' = score_at a r k'
  \/ (k' = k /\ P r /\ score_at a' r k' = Some 0).
Proof.
  intros (_ & Hl & H). unfold score_at.
  destruct (rows a !! r) as [v|] eqn:Hv, (rows a' !! r) as [v'|] eqn:Hv'.
  - destruct (H r v v' Hv Hv') as [_ Hn].
    destruct (Hn (5 + k')%nat) as [E | (En & Hr & Hz)]; [left; exact E|].
    right. split; [lia|]. split; assumption.
  - apply lookup_ge_None in Hv'. apply lookup_lt_Some in Hv. lia.
  - apply lookup_ge_None in Hv. apply lookup_lt_Some in Hv'. lia.
  - left. reflexivity.
Qed.

Lemma classes_set_zeroes (box : BoundBox) (k : nat) (a a' : ndarray) :
  classes_set box k 0 a = (Ok tt, a') ->
  zeroes k (eq (classes box)) a a' /\ score_at a' (classes box) k = Some 0.
Proof.
  unfold classes_set, score_at.
  destruct (rows a !! classes box) as [v|] eqn:Hv; [|discriminate].
  destruct (Nat.ltb_spec (5 + k) (length v)) as [Hk|Hk]; [|discriminate].
  intros [= <-]. unfold zeroes. cbn [rows shape set_rows]. split.
  - split; [reflexivity|]. split; [apply length_insert|].
    intros r w w' Hw Hw'.
    destruct (decide (r = classes box)) as [->|Hr].
    + rewrite Hv in Hw. injection Hw as <-.
      rewrite list_lookup_insert_eq in Hw' by (eapply lookup_lt_Some; exact Hv).
      injection Hw' as <-. split; [apply length_insert|]. intros n.
      destruct (decide (n = 5 + k)%nat) as [->|Hn].
      * right. split; [reflexivity|]. split; [reflexivity|].
        apply list_lookup_insert_eq. exact Hk.
      * left. apply list_lookup_insert_ne. lia.
    + rewrite list_lookup_insert_ne in Hw' by congruence.
      rewrite Hw in Hw'. injection Hw' as <-.
      split; [reflexivity|]. intros n. left. reflexivity.
  - rewrite list_lookup_insert_eq by (eapply lookup_lt_Some; exact Hv).
    apply list_lookup_insert_eq. exact Hk.
Qed.

(** ** The suppression pass *)

Lemma for_each_cons_run {A : Type} (x : A) (l : list A) (body : A -> M unit) (a : ndarray) :
  for_each (x :: l) body a =
  match body x a with
  | (Ok _, a1) => for_each l body a1
  | (Raise e, a1) => (Raise e, a1)
  end.
Proof. reflexivity. Qed.

Lemma suppress_pair_run (boxes : list BoundBox) (k : nat) (nms_thre : Q)
    (index_i index_j : nat) (box_i : BoundBox) (a : ndarray) :
  boxes !! index_i = Some box_i ->
  suppress_pair boxes k nms_thre index_i index_j a =
  match boxes !! index_j with
  | Some box_j =>
      match bbox_iou box_i box_j with
      | Ok iou => if Qle_bool nms_thre iou then classes_set box_j k 0 a else (Ok tt, a)
      | Raise e => (Raise e, a)
      end
  | None => (Raise IndexError, a)
  end.
Proof.
  intros Hi. unfold suppress_pair, boxes_get, bind, lift, ret, raise. rewrite Hi.
  destruct (boxes !! index_j) as [box_j|]; [|reflexivity].
  destruct (bbox_iou box_i box_j) as [iou|e]; [|reflexivity].
  destruct (Qle_bool nms_thre iou); reflexivity.
Qed.

(** The loop on [j]: every box sorted after [box_i] has been compared with
    it, and zeroed for class [k] when the IoU reaches the threshold. *)
Lemma suppress_later_spec (boxes : list BoundBox) (k : nat) (nms_thre : Q)
    (index_i : nat) (box_i : BoundBox) (later : list nat) (a a' : ndarray) :
  boxes !! index_i = Some box_i ->
  suppress_later boxes k nms_thre index_i later a = (Ok tt, a') ->
  zeroes k (viewed boxes later) a a' /\
  forall j box_j, j ∈ later -> boxes !! j = Some box_j ->
    exists iou, bbox_iou box_i box_j = Ok iou /\
      (nms_thre <= iou -> score_at a' (classes box_j) k = Some 0).
Proof.
  intros Hi. unfold suppress_later. revert a.
  induction later as [|index_j later IH]; intros a.
  - simpl. unfold ret. intros [= <-]. split; [apply zeroes_refl|].
    intros j box_j Hj. inversion Hj.
  - rewrite for_each_cons_run, (suppress_pair_run _ _ _ _ _ _ _ Hi).
    destruct (boxes !! index_j) as [box_j|] eqn:Hj; [|discriminate].
    destruct (bbox_iou box_i box_j) as [iou|e] eqn:Hiou; [|discriminate].
    assert (Hstep : forall a1, zeroes k (viewed boxes (index_j :: later)) a a1 ->
              (nms_thre <= iou -> score_at a1 (classes box_j) k = Some 0) ->
              for_each later (suppress_pair boxes k nms_thre index_i) a1 = (Ok tt, a') ->
              zeroes k (viewed boxes (index_j :: later)) a a' /\
              forall j box_j0, j ∈ index_j :: later -> boxes !! j = Some box_j0 ->
                exists iou0, bbox_iou box_i box_j0 = Ok iou0 /\
                  (nms_thre <= iou0 -> score_at a' (classes box_j0) k = Some 0)).
    { intros a1 Hz1 Hzero Hrest. destruct (IH a1 Hrest) as [Hz2 Hlater].
      assert (Hz2' : zeroes k (viewed boxes (index_j :: later)) a1 a').
      { eapply zeroes_weaken; [|exact Hz2]. intros r (j & box & Hin & Hb & Hr).
        exists j, box. split; [right; exact Hin|]. split; assumption. }
      split; [eapply zeroes_trans; eassumption|].
      intros j box_j0 Hin Hbj. apply elem_of_cons in Hin as [-> | Hin].
      - rewrite Hj in Hbj. injection Hbj as <-. exists iou. split; [exact Hiou|].
        intros Hle. specialize (Hzero Hle).
        destruct (zeroes_score_at k _ a1 a' (classes box_j) k Hz2) as [E | (_ & _ & E)].
        + rewrite E. exact Hzero.
        + exact E.
      - apply (Hlater j); assumption. }
    destruct (Qle_bool nms_thre iou) eqn:Hle.
    + destruct (classes_set box_j k 0 a) as [[[]|e] a1] eqn:Hset; [|discriminate].
      apply classes_set_zeroes in Hset as [Hz Hs]. apply Hstep.
      * eapply zeroes_weaken; [|exact Hz]. intros r <-.
        exists index_j, box_j. split; [left|]. split; [exact Hj|reflexivity].
      * intros _. exact Hs.
    + apply Hstep; [apply zeroes_refl|].
      intros Hle'. apply Qle_bool_iff in Hle'. congruence.
Qed.

Lemma suppress_from_cons_run (boxes : list BoundBox) (k : nat) (nms_thre : Q)
    (index_i : nat) (later : list nat) (a : ndarray) :
  suppress_from boxes k nms_thre (index_i :: later) a =
  match boxes !! index_i with
  | Some box_i =>
      match score_at a (classes box_i) k with
      | Some s =>
          if Qeq_bool s 0 then suppress_from boxes k nms_thre later a
          else
            match suppress_later boxes k nms_thre index_i later a with
            | (Ok _, a1) => suppress_from boxes k nms_thre later a1
            | (Raise e, a1) => (Raise e, a1)
            end
      | None => (Raise IndexError, a)
      end
  | None => (Raise IndexError, a)
  end.
Proof.
  cbn [suppress_from]. unfold bind at 1, boxes_get.
  destruct (boxes !! index_i) as [box_i|]; [|reflexivity].
  unfold ret at 1. unfold bind at 1. rewrite classes_get_run.
  destruct (score_at a (classes box_i) k) as [s|]; [|reflexivity].
  unfold bind. destruct (Qeq_bool s 0); reflexivity.
Qed.

(** The loop on [i]: after it, a box that still has a non-zero score for
    class [k] has been compared with every box sorted after it, and those
    whose IoU with it reaches the threshold have the score [0]. *)
Lemma suppress_from_spec (boxes : list BoundBox) (k : nat) (nms_thre : Q)
    (l : list nat) (a a' : ndarray) :
  NoDup (map classes boxes) ->
  NoDup l ->
  suppress_from boxes k nms_thre l a = (Ok tt, a') ->
  zeroes k (viewed boxes l) a a' /\
  forall p q i j box_i box_j s,
    (p < q)%nat -> l !! p = Some i -> l !! q = Some j ->
    boxes !! i = Some box_i -> boxes !! j = Some box_j ->
    score_at a' (classes box_i) k = Some s -> ~ s == 0 ->
    exists iou, bbox_iou box_i box_j = Ok iou /\
      (nms_thre <= iou -> score_at a' (classes box_j) k = Some 0).
Proof.
  intros Hviews. revert a. induction l as [|index_i later IH]; intros a Hnd.
  - simpl. unfold ret. intros [= <-]. split; [apply zeroes_refl|].
    intros p q i j box_i box_j s _ Hp. discriminate.
  - apply NoDup_cons in Hnd as [Hnotin Hnd]. rewrite suppress_from_cons_run.
    destruct (boxes !! index_i) as [box_i|] eqn:Hi; [|discriminate].
    destruct (score_at a (classes box_i) k) as [s|] eqn:Hs; [|discriminate].
    assert (Hfresh : ~ viewed boxes later (classes box_i)).
    { intros (j & box & Hin & Hb & Hr).
      assert (j = index_i); [|congruence].
      eapply (NoDup_lookup _ _ _ _ Hviews).
      - rewrite list_lookup_fmap, Hb. simpl. rewrite Hr. reflexivity.
      - rewrite list_lookup_fmap, Hi. reflexivity. }
    assert (Hweak : forall a1 a2, zeroes k (viewed boxes later) a1 a2 ->
              zeroes k (viewed boxes (index_i :: later)) a1 a2).
    { intros a1 a2. apply zeroes_weaken. intros r (j & box & Hin & Hb & Hr).
      exists j, box. split; [right; exact Hin|]. split; assumption. }
    assert (Hstep : forall a1,
              zeroes k (viewed boxes later) a a1 ->
              (~ s == 0 -> forall j box_j, j ∈ later -> boxes !! j = Some box_j ->
                 exists iou, bbox_iou box_i box_j = Ok iou /\
                   (nms_thre <= iou -> score_at a1 (classes box_j) k = Some 0)) ->
              suppress_from boxes k nms_thre later a1 = (Ok tt, a') ->
              zeroes k (viewed boxes (index_i :: later)) a a' /\
              forall p q i j box_i0 box_j s0,
                (p < q)%nat -> (index_i :: later) !! p = Some i ->
                (index_i :: later) !! q = Some j ->
                boxes !! i = Some box_i0 -> boxes !! j = Some box_j ->
                score_at a' (classes box_i0) k = Some s0 -> ~ s0 == 0 ->
                exists iou, bbox_iou box_i0 box_j = Ok iou /\
                  (nms_thre <= iou -> score_at a' (classes box_j) k = Some 0)).
    { intros a1 Hz1 Hpairs Hrest. destruct (IH a1 Hnd Hrest) as [Hz2 Hlater].
      split; [eapply zeroes_trans; apply Hweak; eassumption|].
      intros p q i j box_i0 box_j s0 Hpq Hp Hq Hbi Hbj Hs0 Hnz.
      destruct q as [|q]; [lia|]. cbn in Hq. destruct p as [|p].
      - cbn in Hp. injection Hp as <-. rewrite Hi in Hbi. injection Hbi as <-.
        assert (Hsame : score_at a' (classes box_i) k = score_at a (classes box_i) k).
        { destruct (zeroes_score_at k _ a1 a' (classes box_i) k Hz2)
            as [E2 | (_ & Hv & _)]; [|contradiction].
          destruct (zeroes_score_at k _ a a1 (classes box_i) k Hz1)
            as [E1 | (_ & Hv & _)]; [|contradiction].
          congruence. }
        rewrite Hsame, Hs in Hs0. injection Hs0 as <-.
        destruct (Hpairs Hnz j box_j) as (iou & Hiou & Hzero);
          [eapply list_elem_of_lookup_2; exact Hq|exact Hbj|].
        exists iou. split; [exact Hiou|]. intros Hle. specialize (Hzero Hle).
        destruct (zeroes_score_at k _ a1 a' (classes box_j) k Hz2) as [E | (_ & _ & E)].
        + rewrite E. exact Hzero.
        + exact E.
      - cbn in Hp. apply (Hlater p q i j box_i0 box_j s0); try assumption. lia. }
    destruct (Qeq_bool s 0) eqn:Hs0.
    + apply Hstep; [apply zeroes_refl|].
      intros Hnz. apply Qeq_bool_iff in Hs0. contradiction.
    + destruct (suppress_later boxes k nms_thre index_i later a) as [[[]|e] a1] eqn:Hl;
        [|discriminate].
      destruct (suppress_later_spec _ _ _ _ _ _ _ _ Hi Hl) as [Hz1 Hpairs].
      apply Hstep; [exact Hz1|]. intros _. exact Hpairs.
Qed.

Lemma class_column_run (boxes : list BoundBox) (k : nat) (a : ndarray) :
  class_column boxes k a =
  match column_of a boxes k with
  | Some col => (Ok col, a)
  | None => (Raise IndexError, a)
  end.
Proof.
  induction boxes as [|box boxes IH]; [reflexivity|].
  cbn [class_column column_of]. unfold bind at 1. rewrite classes_get_run.
  destruct (score_at a (classes box) k) as [s|]; [|reflexivity].
  unfold bind. rewrite IH. destruct (column_of a boxes k); reflexivity.
Qed.

Lemma column_of_ext (a a' : ndarray) (boxes : list BoundBox) (k : nat) :
  (forall r, score_at a' r k = score_at a r k) ->
  column_of a' boxes k = column_of a boxes k.
Proof.
  intros Hext. induction boxes as [|box boxes IH]; [reflexivity|].
  cbn [column_of]. rewrite Hext, IH. reflexivity.
Qed.

Lemma sorted_indices_of_NoDup (argsort : list Q -> list nat) (col : list Q) :
  sorts argsort -> NoDup (sorted_indices_of argsort col).
Proof.
  intros Hsorts. rewrite sorted_indices_of_Permutation by exact Hsorts. apply NoDup_seq.
Qed.

(** One pass of the suppression, for class [k]. *)
Lemma suppress_class_spec (argsort : list Q -> list nat) (boxes : list BoundBox)
    (nms_thre : Q) (k : nat) (a a' : ndarray) :
  sorts argsort ->
  NoDup (map classes boxes) ->
  suppress_class argsort boxes nms_thre k a = (Ok tt, a') ->
  exists col,
    column_of a boxes k = Some col /\
    zeroes k (fun _ => True) a a' /\
    separated boxes k nms_thre (sorted_indices_of argsort col) a'.
Proof.
  intros Hsorts Hviews. unfold suppress_class, bind. rewrite class_column_run.
  destruct (column_of a boxes k) as [col|]; [|discriminate].
  intros Hrun. exists col. split; [reflexivity|].
  destruct (suppress_from_spec _ _ _ _ _ _ Hviews
              (sorted_indices_of_NoDup argsort col Hsorts) Hrun) as [Hz Hsep].
  split; [|exact Hsep].
  eapply zeroes_weaken; [|exact Hz]. intros r _. exact I.
Qed.

Lemma zeroes_other_class (k k' : nat) (P : nat -> Prop) (a a' : ndarray) (r : nat) :
  zeroes k P a a' -> k' <> k -> score_at a' r k' = score_at a r k'.
Proof.
  intros Hz Hk. destruct (zeroes_score_at k P a a' r k' Hz) as [E | (E & _)];
    [exact E|contradiction].
Qed.

Lemma separated_ext (boxes : list BoundBox) (k : nat) (nms_thre : Q) (l : list nat)
    (a a' : ndarray) :
  (forall r, score_at a' r k = score_at a r k) ->
  separated boxes k nms_thre l a -> separated boxes k nms_thre l a'.
Proof.
  intros Hext Hsep p q i j box_i box_j s Hpq Hp Hq Hbi Hbj Hs Hnz.
  rewrite Hext in Hs.
  destruct (Hsep p q i j box_i box_j s Hpq Hp Hq Hbi Hbj Hs Hnz) as (iou & Hiou & Hz).
  exists iou. split; [exact Hiou|]. rewrite Hext. exact Hz.
Qed.

(** The passes for the classes [ks]: the scores of the other classes are
    as they were, and every class of [ks] is separated along the order that
    the scores before the passes give it. *)
Lemma suppress_classes_spec (argsort : list Q -> list nat) (boxes : list BoundBox)
    (nms_thre : Q) (ks : list nat) (a a' : ndarray) :
  sorts argsort ->
  NoDup (map classes boxes) ->
  NoDup ks ->
  for_each ks (suppress_class argsort boxes nms_thre) a = (Ok tt, a') ->
  (forall r k, k ∉ ks -> score_at a' r k = score_at a r k) /\
  forall k, k ∈ ks ->
    exists col, column_of a boxes k = Some col /\
      separated boxes k nms_thre (sorted_indices_of argsort col) a'.
Proof.
  intros Hsorts Hviews. revert a. induction ks as [|k0 ks IH]; intros a Hnd.
  - simpl. unfold ret. intros [= <-]. split; [reflexivity|].
    intros k Hk. inversion Hk.
  - apply NoDup_cons in Hnd as [Hk0 Hnd]. rewrite for_each_cons_run.
    destruct (suppress_class argsort boxes nms_thre k0 a) as [[[]|e] a1] eqn:E0; [|discriminate].
    intros Hrest.
    destruct (suppress_class_spec _ _ _ _ _ _ Hsorts Hviews E0)
      as (col0 & Hcol0 & Hz0 & Hsep0).
    destruct (IH a1 Hnd Hrest) as [Hframe Hseps]. split.
    + intros r k Hk. apply not_elem_of_cons in Hk as [Hk Hk'].
      rewrite (Hframe r k Hk'). eapply zeroes_other_class; eassumption.
    + intros k Hk. apply elem_of_cons in Hk as [-> | Hk].
      * exists col0. split; [exact Hcol0|].
        eapply separated_ext; [|exact Hsep0]. intros r. apply Hframe. exact Hk0.
      * destruct (Hseps k Hk) as (col & Hcol & Hsep). exists col. split; [|exact Hsep].
        rewrite <- Hcol. symmetry. apply column_of_ext. intros r.
        eapply zeroes_other_class; [exact Hz0|]. intros ->. contradiction.
Qed.

(** The suppression on any list of boxes whose views are pairwise distinct. *)
Lemma suppress_separates (argsort : list Q -> list nat) (boxes : list BoundBox)
    (nb_class : nat) (nms_thre : Q) (a a' : ndarray) (k : nat) (col : list Q)
    (p q i j : nat) (box_i box_j : BoundBox) (s_i s_j : Q) :
  sorts argsort ->
  NoDup (map classes boxes) ->
  suppress argsort boxes nb_class nms_thre a = (Ok tt, a') ->
  (k < nb_class)%nat ->
  column_of a boxes k = Some col ->
  (p < q)%nat ->
  sorted_indices_of argsort col !! p = Some i ->
  sorted_indices_of argsort col !! q = Some j ->
  boxes !! i = Some box_i ->
  boxes !! j = Some box_j ->
  score_at a' (classes box_i) k = Some s_i -> 0 < s_i ->
  score_at a' (classes box_j) k = Some s_j -> 0 < s_j ->
  exists iou, bbox_iou box_i box_j = Ok iou /\ iou < nms_thre.
Proof.
  intros Hsorts Hviews Hrun Hk Hcol Hpq Hp Hq Hbi Hbj Hsi Hpi Hsj Hpj.
  destruct (suppress_classes_spec _ _ _ _ _ _ Hsorts Hviews (NoDup_seq 0 nb_class) Hrun)
    as [_ Hseps].
  destruct (Hseps k) as (col' & Hcol' & Hsep); [apply elem_of_seq; lia|].
  rewrite Hcol in Hcol'. injection Hcol' as <-.
  destruct (Hsep p q i j box_i box_j s_i Hpq Hp Hq Hbi Hbj Hsi) as (iou & Hiou & Hz);
    [lra|].
  exists iou. split; [exact Hiou|].
  apply Qnot_le_lt. intros Hle. rewrite (Hz Hle) in Hsj. injection Hsj as <-. lra.
Qed.

(** ** The views of the candidates are pairwise distinct *)

(** A loop of appends over distinct elements, where what the body appends
    at [x] can be told from [x] by [key], appends no duplicate. *)
Lemma for_append_NoDup {A B C : Type} (f : B -> C) (key : C -> A)
    (l : list A) (body : A -> M (list B)) (a a' : ndarray) (bs : list B) :
  (forall x, reads_only (body x)) ->
  NoDup l ->
  (forall x b, x ∈ l -> body x a = (Ok b, a) ->
     NoDup (map f b) /\ Forall (fun y => key (f y) = x) b) ->
  for_append l body a = (Ok bs, a') ->
  NoDup (map f bs).
Proof.
  intros Hro Hnd Hbody Hrun.
  destruct (for_append_concat l body a a' bs Hro Hrun) as (bss & HF & ->).
  clear Hrun. induction HF as [|x b l bss Hx HF IH]; simpl; [constructor|].
  apply NoDup_cons in Hnd as [Hnotin Hnd].
  destruct (Hbody x b) as [Hb Hkey]; [left|exact Hx|].
  rewrite map_app. apply NoDup_app. split; [exact Hb|]. split.
  - intros y Hy1 Hy2.
    apply list_elem_of_fmap in Hy1 as (y1 & -> & Hy1).
    apply list_elem_of_fmap in Hy2 as (y2 & Heq & Hy2).
    apply list_elem_of_In, in_concat in Hy2 as (b' & Hb' & Hy2b).
    apply list_elem_of_In in Hb', Hy2b.
    apply list_elem_of_lookup in Hb' as (n & Hn).
    destruct (Forall2_lookup_r _ _ _ _ _ HF Hn) as (x' & Hx' & Hrun').
    destruct (Hbody x' b') as [_ Hkey'];
      [right; eapply list_elem_of_lookup_2; exact Hx'|exact Hrun'|].
    rewrite Forall_forall in Hkey, Hkey'.
    apply Hnotin. replace x with x'; [eapply list_elem_of_lookup_2; exact Hx'|].
    rewrite <- (Hkey' y2 Hy2b), <- (Hkey y1 Hy1), Heq. reflexivity.
  - apply IH; [exact Hnd|]. intros x' b' Hin. apply Hbody. right. exact Hin.
Qed.

Lemma decode_box_classes (exp : Q -> Q) (anchors : list Q) (fm_height fm_width : Z)
    (grid_h grid_w row col b r : nat) (v : list Q) (box : BoundBox) :
  decode_box exp anchors fm_height fm_width grid_h grid_w row col b r v = Ok box ->
  classes box = r.
Proof.
  unfold decode_box. destruct (image_box _ _ _ _ _ _ _ _) as [ib|e]; [|discriminate].
  simpl. intros [= <-]. reflexivity.
Qed.

(** The position viewed by the box of the cell [(row, col, b)] of a
    four-dimensional array. *)
Lemma candidate_view (exp : Q -> Q) (anchors : list Q) (fm_height fm_width : Z)
    (grid_h grid_w row col b : nat) (a a' : ndarray) (bs : list BoundBox)
    (box : BoundBox) (d0 d1 d2 d3 : nat) :
  shape a = [d0; d1; d2; d3] ->
  candidate exp anchors fm_height fm_width grid_h grid_w row col b a = (Ok bs, a') ->
  box ∈ bs ->
  bs = [box] /\
  classes box = ((row * d1 + col) * d2 + b)%nat /\
  (row < d0)%nat /\ (col < d1)%nat /\ (b < d2)%nat.
Proof.
  intros Hsh Hrun Hin.
  destruct (candidate_emits _ _ _ _ _ _ _ _ _ _ _ _ _ Hrun Hin)
    as (r & Hbs & Hidx & _ & _ & Hdec).
  apply decode_box_classes in Hdec. rewrite Hsh in Hidx. unfold index3 in Hidx.
  destruct (Nat.ltb_spec row d0), (Nat.ltb_spec col d1), (Nat.ltb_spec b d2);
    try discriminate.
  cbn in Hidx. injection Hidx as <-.
  split; [exact Hbs|]. split; [rewrite Hdec; lia|]. repeat split; assumption.
Qed.

Lemma build_boxes_rank (exp : Q -> Q) (anchors : list Q) (fm_height fm_width : Z)
    (grid_h grid_w nb_box : nat) (a a' : ndarray) (boxes : list BoundBox) (box : BoundBox) :
  build_boxes exp anchors fm_height fm_width grid_h grid_w nb_box a = (Ok boxes, a') ->
  box ∈ boxes ->
  exists d0 d1 d2 d3, shape a = [d0; d1; d2; d3].
Proof.
  intros Hrun Hin.
  destruct (build_boxes_elem_of _ _ _ _ _ _ _ _ _ _ _ Hrun Hin)
    as (row & col & b & bs & _ & _ & _ & Hcand & Hbs).
  destruct (candidate_emits _ _ _ _ _ _ _ _ _ _ _ _ _ Hcand Hbs)
    as (r & _ & Hidx & Hlen & _).
  unfold index3 in Hidx.
  destruct (shape a) as [|d0 [|d1 [|d2 tail]]]; try discriminate.
  cbn in Hlen. destruct tail as [|d3 [|d4 tail]]; try discriminate.
  exists d0, d1, d2, d3. reflexivity.
Qed.

Lemma cell_of_view (d1 d2 row col b : nat) :
  (col < d1)%nat -> (b < d2)%nat ->
  (((row * d1 + col) * d2 + b) mod d2 = b /\
   (((row * d1 + col) * d2 + b) / d2) mod d1 = col /\
   ((row * d1 + col) * d2 + b) / d2 / d1 = row)%nat.
Proof.
  intros Hcol Hb.
  assert (Hdiv : (((row * d1 + col) * d2 + b) / d2 = row * d1 + col)%nat).
  { rewrite Nat.div_add_l by lia. rewrite Nat.div_small by exact Hb. lia. }
  rewrite Hdiv. repeat split.
  - rewrite Nat.add_comm, Nat.Div0.mod_add. apply Nat.mod_small. exact Hb.
  - rewrite Nat.add_comm, Nat.Div0.mod_add. apply Nat.mod_small. exact Hcol.
  - rewrite Nat.div_add_l by lia. rewrite Nat.div_small by exact Hcol. lia.
Qed.

(** No two candidates look into the same vector of the array. *)
Lemma build_boxes_views_NoDup (exp : Q -> Q) (anchors : list Q) (fm_height fm_width : Z)
    (grid_h grid_w nb_box : nat) (a a' : ndarray) (boxes : list BoundBox) :
  build_boxes exp anchors fm_height fm_width grid_h grid_w nb_box a = (Ok boxes, a') ->
  NoDup (map classes boxes).
Proof.
  intros Hrun. destruct boxes as [|box0 boxes0] eqn:Eb; [constructor|]. rewrite <- Eb in *.
  destruct (build_boxes_rank _ _ _ _ _ _ _ _ _ _ box0 Hrun) as (d0 & d1 & d2 & d3 & Hsh);
    [rewrite Eb; left|].
  clear Eb box0 boxes0. unfold build_boxes in Hrun.
  assert (Hro3 : forall row col b,
            reads_only (candidate exp anchors fm_height fm_width grid_h grid_w row col b))
    by (intros; apply candidate_reads_only).
  assert (Hro2 : forall row col,
            reads_only (for_append (seq 0 nb_box) (fun b =>
              candidate exp anchors fm_height fm_width grid_h grid_w row col b)))
    by (intros; apply for_append_reads_only; intros; apply Hro3).
  assert (Hro1 : forall row,
            reads_only (for_append (seq 0 grid_w) (fun col =>
              for_append (seq 0 nb_box) (fun b =>
                candidate exp anchors fm_height fm_width grid_h grid_w row col b))))
    by (intros; apply for_append_reads_only; intros; apply Hro2).
  eapply (for_append_NoDup classes (fun r => (r / d2 / d1)%nat));
    [exact Hro1|apply NoDup_seq| |exact Hrun].
  intros row bs1 _ Hrun1. split.
  - eapply (for_append_NoDup classes (fun r => ((r / d2) mod d1)%nat));
      [apply Hro2|apply NoDup_seq| |exact Hrun1].
    intros col bs2 _ Hrun2. split.
    + eapply (for_append_NoDup classes (fun r => (r mod d2)%nat));
        [apply Hro3|apply NoDup_seq| |exact Hrun2].
      intros b bs3 _ Hrun3. split.
      * destruct bs3 as [|box bs3]; [constructor|].
        destruct (candidate_view _ _ _ _ _ _ _ _ _ _ _ _ box _ _ _ _ Hsh Hrun3)
          as (E & _); [left|].
        injection E as ->. repeat constructor. intros H. inversion H.
      * apply Forall_forall. intros box Hin.
        destruct (candidate_view _ _ _ _ _ _ _ _ _ _ _ _ box _ _ _ _ Hsh Hrun3 Hin)
          as (_ & -> & _ & Hcol & Hb).
        apply (cell_of_view d1 d2 row col b Hcol Hb).
    + apply Forall_forall. intros box Hin.
      destruct (for_append_elem_of _ _ _ _ _ _ (Hro3 row col) Hrun2 Hin)
        as (b & bs3 & _ & Hrun3 & Hin3).
      destruct (candidate_view _ _ _ _ _ _ _ _ _ _ _ _ box _ _ _ _ Hsh Hrun3 Hin3)
        as (_ & -> & _ & Hcol & Hb).
      apply (cell_of_view d1 d2 row col b Hcol Hb).
  - apply Forall_forall. intros box Hin.
    destruct (for_append_elem_of _ _ _ _ _ _ (Hro2 row) Hrun1 Hin)
      as (col & bs2 & _ & Hrun2 & Hin2).
    destruct (for_append_elem_of _ _ _ _ _ _ (Hro3 row col) Hrun2 Hin2)
      as (b & bs3 & _ & Hrun3 & Hin3).
    destruct (candidate_view _ _ _ _ _ _ _ _ _ _ _ _ box _ _ _ _ Hsh Hrun3 Hin3)
      as (_ & -> & _ & Hcol & Hb).
    apply (cell_of_view d1 d2 row col b Hcol Hb).
Qed.

(** C2: when the suppression pass that [batch_decode_yolo] runs on the
    candidates it has built returns, then for every class [k] and every two
    candidates [i] and [j] that still have a score above zero for [k], [i]
    coming before [j] in [sorted_indices], [bbox_iou] of the two is defined
    and below [nms_thre]. *)
Theorem suppression_separates_survivors (argsort : list Q -> list nat) (exp : Q -> Q)
    (anchors : list Q) (fm_height fm_width : Z) (grid_h grid_w nb_box nb_class : nat)
    (nms_thre : Q) (a a1 a' : ndarray) (boxes : list BoundBox) (k : nat) (col : list Q)
    (p q i j : nat) (box_i box_j : BoundBox) (s_i s_j : Q) :
  sorts argsort ->
  build_boxes exp anchors fm_height fm_width grid_h grid_w nb_box a = (Ok boxes, a1) ->
  suppress argsort boxes nb_class nms_thre a1 = (Ok tt, a') ->
  (k < nb_class)%nat ->
  column_of a1 boxes k = Some col ->
  (p < q)%nat ->
  sorted_indices_of argsort col !! p = Some i ->
  sorted_indices_of argsort col !! q = Some j ->
  boxes !! i = Some box_i ->
  boxes !! j = Some box_j ->
  score_at a' (classes box_i) k = Some s_i -> 0 < s_i ->
  score_at a' (classes box_j) k = Some s_j -> 0 < s_j ->
  exists iou, bbox_iou box_i box_j = Ok iou /\ iou < nms_thre.
Proof.
  intros Hsorts Hbuild. apply suppress_separates; [exact Hsorts|].
  eapply build_boxes_views_NoDup. exact Hbuild.
Qed.

(** In [two_box_cube] with [anchors_two_sizes] the candidate of slot [1]
    is the box [(-4, -4, 9, 9)] and the one of slot [0] the box
    [(0, 0, 4, 4)]; both keep the score [1/2]. *)
Lemma suppression_separates_survivors_witness :
  exists iou,
    bbox_iou (new_BoundBox (-4) (-4) 9 9 (1 # 2) 1) (new_BoundBox 0 0 4 4 (1 # 2) 0)
      = Ok iou /\
    iou < 3 # 10.
Proof.
  apply (suppression_separates_survivors argsort_stable exp2 anchors_two_sizes 28 28 6 6 6 1
           (3 # 10)
           (snd (activate exp2 (3 # 10) two_box_cube))
           (snd (activate exp2 (3 # 10) two_box_cube))
           (snd (suppress argsort_stable [new_BoundBox 0 0 4 4 (1 # 2) 0;
                           new_BoundBox (-4) (-4) 9 9 (1 # 2) 1] 1 (3 # 10)
                   (snd (activate exp2 (3 # 10) two_box_cube))))
           [new_BoundBox 0 0 4 4 (1 # 2) 0; new_BoundBox (-4) (-4) 9 9 (1 # 2) 1]
           0%nat [1 # 2; 1 # 2] 0%nat 1%nat 1%nat 0%nat
           (new_BoundBox (-4) (-4) 9 9 (1 # 2) 1) (new_BoundBox 0 0 4 4 (1 # 2) 0)
           (1 # 2) (1 # 2)).
  - exact argsort_stable_sorts.
  - vm_compute. reflexivity.
  - vm_compute. reflexivity.
  - lia.
  - vm_compute. reflexivity.
  - lia.
  - vm_compute. reflexivity.
  - vm_compute. reflexivity.
  - reflexivity.
  - reflexivity.
  - vm_compute. reflexivity.
  - reflexivity.
  - vm_compute. reflexivity.
  - reflexivity.
Defined.

(** ** What the call leaves in the array *)

Lemma suppressed_refl (a : ndarray) : suppressed a a.
Proof.
  split; [reflexivity|]. split; [reflexivity|].
  intros r v v' Hv Hv'. rewrite Hv in Hv'. injection Hv' as <-.
  split; [reflexivity|]. intros n. left. reflexivity.
Qed.

Lemma suppressed_trans (a a1 a2 : ndarray) :
  suppressed a a1 -> suppressed a1 a2 -> suppressed a a2.
Proof.
  intros (Hs1 & Hl1 & H1) (Hs2 & Hl2 & H2).
  split; [congruence|]. split; [congruence|].
  intros r v v2 Hv Hv2.
  destruct (rows a1 !! r) as [v1|] eqn:Hv1.
  - destruct (H1 r v v1 Hv Hv1) as [Hlen1 Hn1].
    destruct (H2 r v1 v2 Hv1 Hv2) as [Hlen2 Hn2].
    split; [congruence|]. intros n.
    destruct (Hn2 n) as [E2 | Hz]; [|right; exact Hz].
    rewrite E2. destruct (Hn1 n) as [E1 | Hz]; [left; exact E1|right; exact Hz].
  - apply lookup_ge_None in Hv1. apply lookup_lt_Some in Hv. lia.
Qed.

Lemma zeroes_suppressed (k : nat) (P : nat -> Prop) (a a' : ndarray) :
  zeroes k P a a' -> suppressed a a'.
Proof.
  intros (Hs & Hl & H). split; [exact Hs|]. split; [exact Hl|].
  intros r v v' Hv Hv'. destruct (H r v v' Hv Hv') as [Hlen Hn].
  split; [exact Hlen|]. intros n.
  destruct (Hn n) as [E | (En & _ & Hz)]; [left; exact E|].
  right. split; [lia|exact Hz].
Qed.

Lemma suppress_from_zeroes (boxes : list BoundBox) (k : nat) (nms_thre : Q)
    (l : list nat) (a a' : ndarray) :
  suppress_from boxes k nms_thre l a = (Ok tt, a') -> zeroes k (fun _ => True) a a'.
Proof.
  revert a. induction l as [|index_i later IH]; intros a.
  - simpl. unfold ret. intros [= <-]. apply zeroes_refl.
  - rewrite suppress_from_cons_run.
    destruct (boxes !! index_i) as [box_i|] eqn:Hi; [|discriminate].
    destruct (score_at a (classes box_i) k) as [s|]; [|discriminate].
    destruct (Qeq_bool s 0); [apply IH|].
    destruct (suppress_later boxes k nms_thre index_i later a) as [[[]|e] a1] eqn:Hl;
      [|discriminate].
    intros Hrest. destruct (suppress_later_spec _ _ _ _ _ _ _ _ Hi Hl) as [Hz _].
    eapply zeroes_trans; [|apply IH; exact Hrest].
    eapply zeroes_weaken; [|exact Hz]. intros r _. exact I.
Qed.

(** The suppression pass writes nothing but zeros, and only into class
    scores; this holds whatever the boxes are. *)
Lemma suppress_suppressed (argsort : list Q -> list nat) (boxes : list BoundBox) (nb_class : nat)
    (nms_thre : Q)
    (a a' : ndarray) :
  suppress argsort boxes nb_class nms_thre a = (Ok tt, a') -> suppressed a a'.
Proof.
  unfold suppress. generalize (seq 0 nb_class) as ks. intros ks. revert a.
  induction ks as [|k ks IH]; intros a.
  - simpl. unfold ret. intros [= <-]. apply suppressed_refl.
  - rewrite for_each_cons_run.
    destruct (suppress_class argsort boxes nms_thre k a) as [[[]|e] a1] eqn:E; [|discriminate].
    intros Hrest. eapply suppressed_trans; [|apply IH; exact Hrest].
    unfold suppress_class, bind in E. rewrite class_column_run in E.
    destruct (column_of a boxes k); [|discriminate].
    eapply zeroes_suppressed, suppress_from_zeroes. exact E.
Qed.

Lemma get_score_reads_only (box : BoundBox) : reads_only (get_score box).
Proof.
  intros a r a'. unfold get_score, get_label, bind, get, lift, ret.
  destruct (Qeq_bool (score box) (-1)); [|same_array].
  destruct (label box =? -1)%Z.
  - destruct (np_argmax _) as [i|e]; [|same_array].
    rewrite classes_get_run. destruct (score_at a _ _); same_array.
  - rewrite classes_get_run. destruct (score_at a _ _); same_array.
Qed.

Lemma final_filter_reads_only (boxes : list BoundBox) (obj_thre : Q) :
  reads_only (final_filter boxes obj_thre).
Proof.
  unfold final_filter. apply for_append_reads_only. intros box a r a'.
  unfold bind. destruct (get_score box a) as [[[s box']|e] a1] eqn:E.
  - apply get_score_reads_only in E as ->.
    destruct (Qlt_le_dec obj_thre s); unfold ret; same_array.
  - apply get_score_reads_only in E as ->. same_array.
Qed.

(** [_softmax] returns, vector for vector, a vector of the same length. *)
Lemma softmax_rows (exp : Q -> Q) (t : Q) (x p : list (list Q)) :
  _softmax exp t x = Ok p ->
  exists g, p = map g x /\ forall v, length (g v) = length v.
Proof.
  unfold _softmax, softmax_shift.
  destruct (np_max (concat x)) as [m|e]; [|discriminate]. simpl.
  destruct (np_min _) as [mn|e]; [|discriminate]. simpl.
  intros [= <-]. destruct (Qlt_le_dec mn t).
  - exists (fun v => let ev := map exp (map (fun e => e / mn * t) (map (fun e => e - m) v)) in
                     map (fun e => e / np_sum ev) ev).
    split; [rewrite !map_map; reflexivity|].
    intros v. cbv zeta. rewrite !length_map. reflexivity.
  - exists (fun v => let ev := map exp (map (fun e => e - m) v) in
                     map (fun e => e / np_sum ev) ev).
    split; [rewrite !map_map; reflexivity|].
    intros v. cbv zeta. rewrite !length_map. reflexivity.
Qed.

(** Rewriting the channels from 5 on leaves the channels below 5. *)
Lemma head_lookup (v l : list Q) (n : nat) :
  (n < 5)%nat -> length l = length (drop 5 v) -> (take 5 v ++ l) !! n = v !! n.
Proof.
  intros Hn Hl. rewrite length_drop in Hl.
  destruct (decide (n < length v)%nat) as [Hv|Hv].
  - rewrite lookup_app_l by (rewrite length_take; lia).
    apply lookup_take_lt. exact Hn.
  - assert (l = []) as -> by (apply nil_length_inv; lia).
    rewrite app_nil_r, lookup_take_lt by exact Hn. reflexivity.
Qed.

Lemma head_length (v l : list Q) :
  length l = length (drop 5 v) -> length (take 5 v ++ l) = length v.
Proof.
  intros Hl. rewrite length_drop in Hl. rewrite length_app, length_take. lia.
Qed.

(** The activation pass, vector by vector: the channels 0 to 3 are left,
    the channel 4 holds the sigmoid of what it held. *)
Lemma activate_rows (exp : Q -> Q) (obj_thre : Q) (a a3 : ndarray) :
  activate exp obj_thre a = (Ok tt, a3) ->
  shape a3 = shape a /\
  length (rows a3) = length (rows a) /\
  forall r v v3, rows a !! r = Some v -> rows a3 !! r = Some v3 ->
    length v3 = length v /\
    (forall n, (n < 4)%nat -> v3 !! n = v !! n) /\
    ((4 < length v)%nat -> v3 !! 4%nat = Some (_sigmoid exp (nth 4 v 0))).
Proof.
  intros Hact. split; [eapply activate_shape; exact Hact|].
  unfold activate, bind in Hact.
  destruct (act_objectness exp a) as [[[]|e] a1] eqn:E1; [|discriminate].
  destruct (act_classes exp a1) as [[[]|e] a2] eqn:E2; [|discriminate].
  apply act_objectness_rows in E1 as [_ Hr1].
  apply act_classes_rows in E2 as (p & Hp & _ & Hr2).
  apply softmax_rows in Hp as (g & -> & Hg).
  unfold act_threshold, modify_rows in Hact. injection Hact as <-.
  cbn [rows set_rows]. rewrite Hr2, Hr1.
  rewrite !map_map, zip_with_fmap_r, zip_with_fmap_l, zip_with_diag, map_map.
  split; [rewrite length_map; reflexivity|].
  intros r v v3 Hv Hv3. rewrite list_lookup_fmap, Hv in Hv3. simpl in Hv3.
  injection Hv3 as <-.
  set (v1 := <[4%nat := _sigmoid exp (nth 4 v 0)]> v).
  set (v2 := take 5 v1 ++ map (Qmult (nth 4 v1 0)) (g (drop 5 v1))).
  assert (Hl1 : length v1 = length v) by apply length_insert.
  assert (Hl2 : length (map (Qmult (nth 4 v1 0)) (g (drop 5 v1))) = length (drop 5 v1))
    by (rewrite length_map; apply Hg).
  assert (Hl3 : length (map (threshold_mask obj_thre) (drop 5 v2)) = length (drop 5 v2))
    by apply length_map.
  assert (Hhead : forall n, (n < 5)%nat ->
            (take 5 v2 ++ map (threshold_mask obj_thre) (drop 5 v2)) !! n = v1 !! n).
  { intros n Hn. rewrite head_lookup by assumption. unfold v2.
    apply head_lookup; assumption. }
  split; [|split].
  - rewrite head_length by exact Hl3. unfold v2. rewrite head_length by exact Hl2.
    exact Hl1.
  - intros n Hn. rewrite Hhead by lia. unfold v1. apply list_lookup_insert_ne. lia.
  - intros H4. rewrite Hhead by lia. unfold v1. apply list_lookup_insert_eq. exact H4.
Qed.

(** C10, as the code has it: when the call returns, the array that the
    caller passed holds, in every vector, the channels 0 to 3 as they were,
    in channel 4 the sigmoid of the objectness, and in every class channel
    either the value that the activation pass put there or the [0] that the
    suppression pass has written through the view of a candidate. *)
Theorem decode_overwrites_its_input (argsort : list Q -> list nat) (exp : Q -> Q)
    (anchors : list Q) (nb_class : nat)
    (feature_map_shape : Z * Z) (obj_thre nms_thre : Q) (a a' : ndarray)
    (boxes : list BoundBox) :
  batch_decode_yolo argsort exp anchors nb_class feature_map_shape obj_thre nms_thre a
    = (Ok boxes, a') ->
  exists a3,
    activate exp obj_thre a = (Ok tt, a3) /\
    shape a' = shape a /\
    length (rows a') = length (rows a) /\
    forall r v v3 v',
      rows a !! r = Some v -> rows a3 !! r = Some v3 -> rows a' !! r = Some v' ->
      length v' = length v /\
      (forall n, (n < 4)%nat -> v' !! n = v !! n) /\
      ((4 < length v)%nat -> v' !! 4%nat = Some (_sigmoid exp (nth 4 v 0))) /\
      (forall n, (5 <= n)%nat -> v' !! n = v3 !! n \/ v' !! n = Some 0).
Proof.
  rewrite batch_decode_yolo_run.
  destruct (shape a) as [|batch [|grid_h [|grid_w [|nb_box sh]]]] eqn:Hsh;
    try discriminate.
  destruct (activate exp obj_thre a) as [[[]|e] a3] eqn:Eact; [|discriminate].
  destruct (build_boxes exp anchors _ _ _ _ _ a3) as [[bs|e] a4] eqn:Ebuild;
    [|discriminate].
  apply build_boxes_reads_only in Ebuild as ->.
  destruct (suppress argsort bs nb_class nms_thre a3) as [[[]|e] a5] eqn:Esup; [|discriminate].
  intros Hfilter. apply final_filter_reads_only in Hfilter as ->.
  apply suppress_suppressed in Esup as (Hs5 & Hl5 & H5).
  destruct (activate_rows _ _ _ _ Eact) as (Hs3 & Hl3 & H3).
  exists a3. split; [reflexivity|]. split; [congruence|]. split; [congruence|].
  intros r v v3 v' Hv Hv3 Hv'.
  destruct (H3 r v v3 Hv Hv3) as (Hlen3 & Hlow & Hobj).
  destruct (H5 r v3 v' Hv3 Hv') as (Hlen5 & Hn).
  split; [congruence|]. repeat split.
  - intros n Hn4. destruct (Hn n) as [E | [Hge _]]; [|lia].
    rewrite E. apply Hlow. exact Hn4.
  - intros H4. destruct (Hn 4%nat) as [E | [Hge _]]; [|lia].
    rewrite E. apply Hobj. exact H4.
  - intros n _. destruct (Hn n) as [E | [_ Hz]]; [left; exact E|right; exact Hz].
Qed.

Lemma decode_overwrites_its_input_witness :
  exists a3,
    activate exp2 (3 # 10) two_box_cube = (Ok tt, a3) /\
    shape (snd (batch_decode_yolo argsort_stable exp2 (replicate 12 1) 1 (28, 28)%Z (3 # 10)
                  (3 # 10) two_box_cube))
      = shape two_box_cube.
Proof.
  destruct (decode_overwrites_its_input argsort_stable exp2 (replicate 12 1) 1 (28, 28)%Z
              (3 # 10) (3 # 10) two_box_cube
              (snd (batch_decode_yolo argsort_stable exp2 (replicate 12 1) 1 (28, 28)%Z (3 # 10)
                      (3 # 10) two_box_cube))
              [mkBoundBox 0 0 4 4 (1 # 2) 1 0 (1 # 2)])
    as (a3 & Hact & Hshape & _).
  - vm_compute. reflexivity.
  - exists a3. split; assumption.
Defined.

(** The two candidates of [two_box_cube] have the class score [1/2] after
    the activation pass.  They are the same box, under [argsort_stable] the
    suppression pass zeroes the first one through its view, and when the
    call has returned the
    caller's array holds [0], not [1/2], as the class score of the first
    vector. *)
Lemma suppression_writes_into_the_array :
  map (map Qred) (take 2 (class_scores (snd (activate exp2 (3 # 10) two_box_cube))))
    = [[1 # 2]; [1 # 2]] /\
  result_map (map classes)
    (fst (batch_decode_yolo argsort_stable exp2 (replicate 12 1) 1 (28, 28)%Z (3 # 10) (3 # 10)
            two_box_cube))
    = Ok [1%nat] /\
  map (map Qred)
      (take 2 (class_scores
                 (snd (batch_decode_yolo argsort_stable exp2 (replicate 12 1) 1 (28, 28)%Z
                         (3 # 10) (3 # 10) two_box_cube))))
    = [[0]; [1 # 2]].
Proof.
  repeat split; vm_compute; reflexivity.
Qed.

(** Decoding [one_box_cube] returns one box.  Decoding the array that this
    call has left returns 36 boxes: the objectness channel now holds
    sigmoids, whose sigmoid is above one half for every cell. *)
Lemma decoding_the_same_array_again :
  result_map length
    (fst (batch_decode_yolo argsort_stable exp2 (replicate 12 1) 1 (28, 28)%Z (3 # 10) (3 # 10)
            one_box_cube))
    = Ok 1%nat /\
  result_map length
    (fst (batch_decode_yolo argsort_stable exp2 (replicate 12 1) 1 (28, 28)%Z (3 # 10) (3 # 10)
            (snd (batch_decode_yolo argsort_stable exp2 (replicate 12 1) 1 (28, 28)%Z (3 # 10)
                    (3 # 10) one_box_cube))))
    = Ok 36%nat.
Proof.
  split; vm_compute; reflexivity.
Qed.

(** * Further properties *)

(** ** The overlap of two intervals and the IoU of two boxes *)


(** On intervals given by their lower and upper ends, the branches of
    [_interval_overlap] compute the length of the intersection in the usual
    closed form, the one [yolo_custom_loss] uses (lines 131-133). *)
Theorem interval_overlap_closed_form (x1 x2 x3 x4 : Z) :
  (x1 <= x2)%Z -> (x3 <= x4)%Z ->
  _interval_overlap (x1, x2) (x3, x4) = Z.max 0 (Z.min x2 x4 - Z.max x1 x3).
Proof.
  intros H12 H34. unfold _interval_overlap.
  destruct (Z.ltb_spec x3 x1) as [H31|H31].
  - destruct (Z.ltb_spec x4 x1) as [H41|H41]; lia.
  - destruct (Z.ltb_spec x2 x3) as [H23|H23]; lia.
Qed.

Lemma interval_overlap_closed_form_witness :
  _interval_overlap (0, 4)%Z (2, 9)%Z = Z.max 0 (Z.min 4 9 - Z.max 0 2).
Proof.
  apply interval_overlap_closed_form; lia.
Defined.






(** ** The softmax *)

(** With a floor [t <= 0], every entry that [_softmax] hands to [np.exp]
    lies between [t] and [0]: the exponential can neither overflow nor fall
    below [exp t]. *)
Theorem softmax_shift_within_floor (t : Q) (x y : list (list Q)) :
  t <= 0 ->
  softmax_shift t x = Ok y ->
  Forall (Forall (fun e => t <= e /\ e <= 0)) y.
Proof.
  intros Ht Hrun.
  destruct (decide (concat x = [])) as [Hempty|Hne].
  { unfold softmax_shift in Hrun. rewrite Hempty in Hrun. discriminate. }
  destruct (softmax_shift_spec t x Hne) as (m & mn & [_ Hm] & [Hmn_in Hmn] & Hy).
  rewrite Hy in Hrun. injection Hrun as <-.
  apply Forall_map, Forall_forall. intros v Hv.
  apply Forall_map, Forall_forall. intros e He.
  assert (Hin : e ∈ concat x).
  { apply list_elem_of_In, in_concat. exists v.
    split; apply list_elem_of_In; assumption. }
  rewrite Forall_forall in Hm. pose proof (Hm e Hin) as Hem.
  rewrite Forall_forall in Hmn.
  assert (Hlow : mn <= e - m).
  { apply Hmn. apply list_elem_of_fmap. exists e. split; [reflexivity|exact Hin]. }
  destruct (Qlt_le_dec mn t) as [Hlt|Hge]; [|split; lra].
  assert (Hneg : mn < 0) by lra.
  assert (Hq : (e - m) / mn * mn == e - m) by (field; lra).
  set (u := (e - m) / mn) in *.
  assert (Hu0 : 0 <= u) by nra.
  assert (Hu1 : u <= 1) by nra.
  split; nra.
Qed.

Lemma softmax_shift_within_floor_witness :
  exists y,
    softmax_shift (-100) two_logit_vectors = Ok y /\
    Forall (Forall (fun e => -100 <= e /\ e <= 0)) y.
Proof.
  eexists. split; [vm_compute; reflexivity|].
  apply (softmax_shift_within_floor (-100) two_logit_vectors).
  - vm_compute. discriminate.
  - vm_compute. reflexivity.
Defined.

(** ** Arrays that the decoder rejects *)

(** An array with fewer than four axes is rejected with [ValueError] by the
    unpacking of its shape, and one whose last axis has no channel 4 with
    [IndexError] by the first assignment; in both cases nothing has been
    written into the array. *)
Theorem decode_rejects_small_shapes (argsort : list Q -> list nat) (exp : Q -> Q)
    (anchors : list Q) (nb_class : nat)
    (feature_map_shape : Z * Z) (obj_thre nms_thre : Q) (a : ndarray) :
  (length (shape a) < 4)%nat \/ (last_dim a < 5)%nat ->
  batch_decode_yolo argsort exp anchors nb_class feature_map_shape obj_thre nms_thre a
  = (Raise (if (length (shape a) <? 4)%nat then ValueError else IndexError), a).
Proof.
  intros Hsmall. rewrite batch_decode_yolo_run.
  destruct (shape a) as [|batch [|grid_h [|grid_w [|nb_box sh]]]] eqn:Hsh;
    try reflexivity.
  destruct Hsmall as [Hrank|Hlast]; [simpl in Hrank; lia|].
  replace (length _ <? 4)%nat with false
    by (symmetry; apply Nat.ltb_ge; simpl; lia).
  unfold activate, act_objectness, bind, get, raise.
  apply Nat.ltb_lt in Hlast. rewrite Hlast. reflexivity.
Qed.

Lemma decode_rejects_small_shapes_witness :
  batch_decode_yolo argsort_stable exp2 [1; 1] 1 (28, 28)%Z (3 # 10) (3 # 10)
    (mk_ndarray [1; 1; 1; 4]%nat [[0; 0; 0; 0]])
  = (Raise IndexError, mk_ndarray [1; 1; 1; 4]%nat [[0; 0; 0; 0]]).
Proof.
  apply (decode_rejects_small_shapes argsort_stable exp2 [1; 1] 1 (28, 28)%Z (3 # 10) (3 # 10)
           (mk_ndarray [1; 1; 1; 4]%nat [[0; 0; 0; 0]])).
  right. vm_compute. lia.
Defined.

Lemma drop_5_insert_4 (s : Q) (v : list Q) : drop 5 (<[4%nat := s]> v) = drop 5 v.
Proof.
  do 5 (destruct v as [|? v]; [reflexivity|]). reflexivity.
Qed.

(** An array that has the five box channels but no class score at all (a
    last axis of size five, or no cell) makes the softmax raise
    [ValueError], from [np.max] of an empty array; by then the objectness
    channel of the caller's array has been overwritten with its sigmoid. *)
Theorem decode_without_class_scores (argsort : list Q -> list nat) (exp : Q -> Q)
    (anchors : list Q) (nb_class : nat)
    (feature_map_shape : Z * Z) (obj_thre nms_thre : Q) (a : ndarray) :
  (4 <= length (shape a))%nat ->
  (5 <= last_dim a)%nat ->
  concat (class_scores a) = [] ->
  batch_decode_yolo argsort exp anchors nb_class feature_map_shape obj_thre nms_thre a
  = (Raise ValueError,
     set_rows a (map (fun v => <[4%nat := _sigmoid exp (nth 4 v 0)]> v) (rows a))).
Proof.
  intros Hrank Hlast Hnone. rewrite batch_decode_yolo_run.
  destruct (shape a) as [|batch [|grid_h [|grid_w [|nb_box sh]]]] eqn:Hsh;
    try (simpl in Hrank; lia).
  unfold activate, act_objectness, act_classes, bind, get, lift, raise, modify_rows.
  apply Nat.ltb_ge in Hlast. rewrite Hlast. cbn [rows set_rows].
  unfold _softmax, softmax_shift.
  rewrite map_map.
  replace (map (fun v => drop 5 (<[4%nat := _sigmoid exp (nth 4 v 0)]> v)) (rows a))
    with (class_scores a)
    by (unfold class_scores; apply map_ext; intros v; symmetry; apply drop_5_insert_4).
  rewrite Hnone. reflexivity.
Qed.

Lemma decode_without_class_scores_witness :
  batch_decode_yolo argsort_stable exp2 [1; 1] 1 (28, 28)%Z (3 # 10) (3 # 10)
    (mk_ndarray [1; 1; 1; 5]%nat [[0; 0; 0; 0; 0]])
  = (Raise ValueError,
     set_rows (mk_ndarray [1; 1; 1; 5]%nat [[0; 0; 0; 0; 0]])
       (map (fun v => <[4%nat := _sigmoid exp2 (nth 4 v 0)]> v) [[0; 0; 0; 0; 0]])).
Proof.
  apply (decode_without_class_scores argsort_stable exp2 [1; 1] 1 (28, 28)%Z (3 # 10) (3 # 10)
           (mk_ndarray [1; 1; 1; 5]%nat [[0; 0; 0; 0; 0]])).
  - simpl. lia.
  - vm_compute. lia.
  - reflexivity.
Defined.

(** ** The label and the score of a box *)

Lemma argmax_from_spec (x pre : list Q) (best : nat) (bv : Q) :
  pre !! best = Some bv ->
  Forall (fun v => v <= bv) pre ->
  (forall j v, (j < best)%nat -> pre !! j = Some v -> v < bv) ->
  exists m, first_max_at (pre ++ x) (argmax_from (length pre) best bv x) m.
Proof.
  revert pre best bv. induction x as [|v x IH]; intros pre best bv Hbest Hmax Hfirst.
  - exists bv. rewrite app_nil_r. split; [exact Hbest|]. split; assumption.
  - cbn [argmax_from].
    replace (S (length pre)) with (length (pre ++ [v]))
      by (rewrite length_app; simpl; lia).
    replace (pre ++ v :: x) with ((pre ++ [v]) ++ x)
      by (rewrite <- app_assoc; reflexivity).
    destruct (Qlt_le_dec bv v) as [Hlt|Hge]; apply IH.
    + apply list_lookup_middle. reflexivity.
    + apply Forall_app. split; [|constructor; [apply Qle_refl|constructor]].
      eapply Forall_impl; [exact Hmax|]. intros u Hu. simpl in Hu. lra.
    + intros j u Hj Hu. rewrite lookup_app_l in Hu by exact Hj.
      rewrite Forall_forall in Hmax.
      assert (u <= bv) by (apply Hmax; eapply list_elem_of_lookup_2; exact Hu). lra.
    + apply lookup_app_l_Some. exact Hbest.
    + apply Forall_app. split; [exact Hmax|]. constructor; [exact Hge|constructor].
    + intros j u Hj Hu. apply (Hfirst j u Hj).
      apply lookup_lt_Some in Hbest.
      rewrite lookup_app_l in Hu by lia. exact Hu.
Qed.

Lemma np_argmax_spec (x : list Q) :
  x <> [] -> exists i m, np_argmax x = Ok i /\ first_max_at x i m.
Proof.
  destruct x as [|v x]; [congruence|]. intros _.
  destruct (argmax_from_spec x [v] 0 v) as (m & Hm).
  - reflexivity.
  - constructor; [apply Qle_refl|constructor].
  - intros j u Hj. lia.
  - exists (argmax_from 1 0 v x), m. split; [reflexivity|exact Hm].
Qed.

(** [get_score] on a box whose caches are empty. *)
Lemma get_score_new_run (box : BoundBox) (a : ndarray) :
  label box = (-1)%Z -> score box = -1 ->
  get_score box a =
  match np_argmax (drop 5 (nth (classes box) (rows a) [])) with
  | Ok i =>
      match score_at a (classes box) i with
      | Some s =>
          (Ok (s, mkBoundBox (xmin box) (ymin box) (xmax box) (ymax box) (c box)
                    (classes box) (Z.of_nat i) s), a)
      | None => (Raise IndexError, a)
      end
  | Raise e => (Raise e, a)
  end.
Proof.
  intros Hl Hs. unfold get_score, get_label. rewrite Hl, Hs.
  change (Qeq_bool (-1) (-1)) with true. change (-1 =? -1)%Z with true. cbv iota.
  unfold bind, get, lift, ret.
  destruct (np_argmax _) as [i|e]; [|reflexivity].
  rewrite classes_get_run. cbn [classes label]. rewrite Nat2Z.id.
  destruct (score_at a (classes box) i); reflexivity.
Qed.

Lemma get_score_new_inv (box box' : BoundBox) (a a' : ndarray) (s : Q) :
  label box = (-1)%Z -> score box = -1 ->
  get_score box a = (Ok (s, box'), a') ->
  a' = a /\
  exists v i,
    rows a !! classes box = Some v /\
    first_max_at (drop 5 v) i s /\
    box' = mkBoundBox (xmin box) (ymin box) (xmax box) (ymax box) (c box)
             (classes box) (Z.of_nat i) s.
Proof.
  intros Hl Hs. rewrite (get_score_new_run box a Hl Hs).
  destruct (np_argmax _) as [i|e] eqn:Hi; [|discriminate].
  unfold score_at. destruct (rows a !! classes box) as [v|] eqn:Hv; [|discriminate].
  destruct (v !! (5 + i)%nat) as [s'|] eqn:Hsi; [|discriminate].
  intros [= <- <- <-]. split; [reflexivity|]. exists v, i.
  split; [reflexivity|]. split; [|reflexivity].
  rewrite (nth_lookup_Some _ _ _ _ Hv) in Hi.
  destruct (np_argmax_spec (drop 5 v)) as (i' & m & Hi' & Hm).
  { intros E. rewrite E in Hi. discriminate. }
  rewrite Hi in Hi'. injection Hi' as <-.
  destruct Hm as (Hat & Hm). rewrite lookup_drop, Hsi in Hat. injection Hat as <-.
  split; [rewrite lookup_drop; exact Hsi|exact Hm].
Qed.

(** [get_score] on a box as [BoundBox.__init__] leaves it, looking into a
    vector with at least one class score: the score is the greatest class
    score of the vector, the label the first position that holds it, and
    both are stored in the box. *)
Theorem get_score_of_new_box (x0 y0 x1 y1 : Z) (conf : Q) (r : nat)
    (a : ndarray) (v : list Q) :
  rows a !! r = Some v ->
  drop 5 v <> [] ->
  exists i s,
    get_score (new_BoundBox x0 y0 x1 y1 conf r) a
      = (Ok (s, mkBoundBox x0 y0 x1 y1 conf r (Z.of_nat i) s), a) /\
    first_max_at (drop 5 v) i s.
Proof.
  intros Hv Hne.
  destruct (np_argmax_spec (drop 5 v) Hne) as (i & m & Hi & Hm).
  exists i, m. rewrite get_score_new_run by reflexivity.
  cbn [classes xmin ymin xmax ymax c new_BoundBox].
  rewrite (nth_lookup_Some _ _ _ _ Hv), Hi.
  unfold score_at. rewrite Hv.
  destruct Hm as (Hat & Hm). rewrite lookup_drop in Hat. rewrite Hat.
  split; [reflexivity|]. split; [rewrite lookup_drop; exact Hat|exact Hm].
Qed.

Lemma get_score_of_new_box_witness :
  exists i s,
    get_score (new_BoundBox 0 0 4 4 (1 # 2) 0)
      (mk_ndarray [1; 1; 1; 8]%nat [[0; 0; 0; 0; 1 # 2; 1 # 10; 3 # 10; 3 # 10]])
      = (Ok (s, mkBoundBox 0 0 4 4 (1 # 2) 0 (Z.of_nat i) s),
         mk_ndarray [1; 1; 1; 8]%nat [[0; 0; 0; 0; 1 # 2; 1 # 10; 3 # 10; 3 # 10]]) /\
    first_max_at (drop 5 [0; 0; 0; 0; 1 # 2; 1 # 10; 3 # 10; 3 # 10]) i s.
Proof.
  apply (get_score_of_new_box 0 0 4 4 (1 # 2) 0
           (mk_ndarray [1; 1; 1; 8]%nat [[0; 0; 0; 0; 1 # 2; 1 # 10; 3 # 10; 3 # 10]])
           [0; 0; 0; 0; 1 # 2; 1 # 10; 3 # 10; 3 # 10]).
  - reflexivity.
  - simpl. discriminate.
Defined.

(** ** The boxes that the decoder returns *)

(** A call that returns, pass by pass. *)
Lemma batch_decode_yolo_inv (argsort : list Q -> list nat) (exp : Q -> Q) (anchors : list Q)
    (nb_class : nat)
    (feature_map_shape : Z * Z) (obj_thre nms_thre : Q) (a a' : ndarray)
    (out : list BoundBox) :
  batch_decode_yolo argsort exp anchors nb_class feature_map_shape obj_thre nms_thre a
    = (Ok out, a') ->
  exists batch grid_h grid_w nb_box rest a1 boxes,
    shape a = batch :: grid_h :: grid_w :: nb_box :: rest /\
    activate exp obj_thre a = (Ok tt, a1) /\
    build_boxes exp anchors (fst feature_map_shape) (snd feature_map_shape)
      grid_h grid_w nb_box a1 = (Ok boxes, a1) /\
    suppress argsort boxes nb_class nms_thre a1 = (Ok tt, a') /\
    final_filter boxes obj_thre a' = (Ok out, a').
Proof.
  rewrite batch_decode_yolo_run.
  destruct (shape a) as [|batch [|grid_h [|grid_w [|nb_box rest]]]]; try discriminate.
  destruct (activate exp obj_thre a) as [[[]|e] a1] eqn:Eact; [|discriminate].
  destruct (build_boxes _ _ _ _ _ _ _ a1) as [[boxes|e] a2] eqn:Ebuild; [|discriminate].
  pose proof (build_boxes_reads_only _ _ _ _ _ _ _ _ _ _ Ebuild) as ->.
  destruct (suppress argsort boxes nb_class nms_thre a1) as [[[]|e] a3] eqn:Esup; [|discriminate].
  intros Hfin. pose proof (final_filter_reads_only _ _ _ _ _ Hfin) as ->.
  exists batch, grid_h, grid_w, nb_box, rest, a1, boxes. repeat split; assumption.
Qed.

Lemma decode_box_new (exp : Q -> Q) (anchors : list Q) (fm_height fm_width : Z)
    (grid_h grid_w row col b r : nat) (v : list Q) (box : BoundBox) :
  decode_box exp anchors fm_height fm_width grid_h grid_w row col b r v = Ok box ->
  label box = (-1)%Z /\ score box = -1 /\ classes box = r /\ c box = nth 4 v 0.
Proof.
  unfold decode_box. destruct (image_box _ _ _ _ _ _ _ _) as [ib|e]; [|discriminate].
  simpl. intros [= <-]. repeat split.
Qed.

(** The candidates are boxes as [BoundBox.__init__] leaves them; each looks
    into a vector of the array whose class scores have a positive sum and
    holds, as its confidence, the channel 4 of that vector. *)
Lemma build_boxes_new (exp : Q -> Q) (anchors : list Q) (fm_height fm_width : Z)
    (grid_h grid_w nb_box : nat) (a a' : ndarray) (boxes : list BoundBox) :
  build_boxes exp anchors fm_height fm_width grid_h grid_w nb_box a = (Ok boxes, a') ->
  Forall (fun box =>
    label box = (-1)%Z /\ score box = -1 /\
    exists v, rows a !! classes box = Some v /\ c box = nth 4 v 0 /\
              0 < np_sum (drop 5 v)) boxes.
Proof.
  intros Hrun. apply Forall_forall. intros box Hin.
  destruct (build_boxes_elem_of _ _ _ _ _ _ _ _ _ _ _ Hrun Hin)
    as (row & col & b & bs & _ & _ & _ & Hcand & Hbs).
  destruct (candidate_emits _ _ _ _ _ _ _ _ _ _ _ _ _ Hcand Hbs)
    as (r & _ & _ & _ & Hsum & Hdec).
  apply decode_box_new in Hdec as (Hl & Hs & Hr & Hc).
  split; [exact Hl|]. split; [exact Hs|]. rewrite Hr.
  destruct (rows a !! r) as [v|] eqn:Hv.
  - rewrite (nth_lookup_Some _ _ _ _ Hv) in Hsum, Hc. exists v. repeat split; assumption.
  - rewrite nth_lookup, Hv in Hsum. exfalso. revert Hsum. apply Qlt_irrefl.
Qed.

(** Line 719, box by box. *)
Lemma final_filter_spec (boxes out : list BoundBox) (obj_thre : Q) (a a' : ndarray) :
  final_filter boxes obj_thre a = (Ok out, a') ->
  exists bss,
    Forall2 (fun box bs => exists s box',
               get_score box a = (Ok (s, box'), a) /\
               bs = if Qlt_le_dec obj_thre s then [box'] else []) boxes bss /\
    out = concat bss.
Proof.
  intros Hrun. unfold final_filter in Hrun.
  apply for_append_concat in Hrun as (bss & HF & ->).
  - exists bss. split; [|reflexivity].
    eapply Forall2_impl; [exact HF|]. intros box bs Hbody. simpl in Hbody.
    unfold bind in Hbody.
    destruct (get_score box a) as [[[s box']|e] a1] eqn:E; [|discriminate].
    pose proof (get_score_reads_only _ _ _ _ E) as ->.
    exists s, box'. split; [reflexivity|].
    destruct (Qlt_le_dec obj_thre s); unfold ret in Hbody; congruence.
  - intros box a0 r a1. unfold bind.
    destruct (get_score box a0) as [[[s box']|e] a2] eqn:E.
    + apply get_score_reads_only in E as ->.
      destruct (Qlt_le_dec obj_thre s); unfold ret; same_array.
    + apply get_score_reads_only in E as ->. same_array.
Qed.

Lemma suppressed_lookup (a a' : ndarray) (r : nat) (v' : list Q) :
  suppressed a a' -> rows a' !! r = Some v' ->
  exists v, rows a !! r = Some v /\ length v' = length v /\
    forall n, v' !! n = v !! n \/ ((5 <= n)%nat /\ v' !! n = Some 0).
Proof.
  intros (_ & Hlen & H) Hv'.
  destruct (rows a !! r) as [v|] eqn:Hv.
  - exists v. split; [reflexivity|]. apply (H r v v' Hv Hv').
  - apply lookup_ge_None in Hv. apply lookup_lt_Some in Hv'. lia.
Qed.

(** Every box that [batch_decode_yolo] returns has a score above
    [obj_thre], and its score and its label are the greatest of the class
    scores that the call leaves in the vector the box looks into and the
    first position that holds it. *)
Theorem decoded_boxes_scored (argsort : list Q -> list nat) (exp : Q -> Q) (anchors : list Q)
    (nb_class : nat)
    (feature_map_shape : Z * Z) (obj_thre nms_thre : Q) (a a' : ndarray)
    (out : list BoundBox) :
  batch_decode_yolo argsort exp anchors nb_class feature_map_shape obj_thre nms_thre a
    = (Ok out, a') ->
  Forall (fun box =>
    obj_thre < score box /\
    exists v i, rows a' !! classes box = Some v /\ label box = Z.of_nat i /\
                first_max_at (drop 5 v) i (score box)) out.
Proof.
  intros Hrun.
  apply batch_decode_yolo_inv in Hrun
    as (batch & grid_h & grid_w & nb_box & rest & a1 & boxes & _ & _ & Hbuild & _ & Hfin).
  apply build_boxes_new in Hbuild.
  apply final_filter_spec in Hfin as (bss & HF & ->).
  apply Forall_concat. clear -Hbuild HF.
  induction HF as [|box bs boxes bss (s & box' & Hget & ->) _ IH]; [constructor|].
  apply Forall_cons in Hbuild as [(Hl & Hs & _) Hrest].
  constructor; [|apply IH; exact Hrest].
  destruct (Qlt_le_dec obj_thre s) as [Hthre|_]; [|constructor].
  constructor; [|constructor].
  destruct (get_score_new_inv _ _ _ _ _ Hl Hs Hget) as (_ & v & i & Hv & Hmax & ->).
  cbn [score classes label]. split; [exact Hthre|].
  exists v, i. repeat split; [exact Hv|apply Hmax..].
Qed.

Lemma decoded_boxes_scored_witness :
  Forall (fun box =>
    3 # 10 < score box /\
    exists v i,
      rows (snd (batch_decode_yolo argsort_stable exp2 (replicate 12 1) 1 (28, 28)%Z (3 # 10)
                   (3 # 10) two_box_cube)) !! classes box = Some v /\
      label box = Z.of_nat i /\
      first_max_at (drop 5 v) i (score box))
    [mkBoundBox 0 0 4 4 (1 # 2) 1 0 (1 # 2)].
Proof.
  apply (decoded_boxes_scored argsort_stable exp2 (replicate 12 1) 1 (28, 28)%Z (3 # 10) (3 # 10)
           two_box_cube).
  vm_compute. reflexivity.
Defined.

Lemma get_score_candidate_of (box box' : BoundBox) (s : Q) (a a' : ndarray) :
  get_score box a = (Ok (s, box'), a') -> candidate_of box' = candidate_of box.
Proof.
  unfold get_score, get_label, bind, get, lift, ret.
  destruct (Qeq_bool (score box) (-1)); [|intros [= _ <- _]; reflexivity].
  destruct (label box =? -1)%Z.
  - destruct (np_argmax _) as [i|e]; [|discriminate].
    rewrite classes_get_run. destruct (score_at a _ _); [|discriminate].
    intros [= _ <- _]. reflexivity.
  - rewrite classes_get_run. destruct (score_at a _ _); [|discriminate].
    intros [= _ <- _]. reflexivity.
Qed.

Lemma first_max_at_bounds (x : list Q) (i : nat) (m s : Q) :
  first_max_at x i m -> s ∈ x -> s <= m.
Proof.
  intros (_ & Hmax & _) Hs. rewrite Forall_forall in Hmax. apply Hmax. exact Hs.
Qed.

(** The boxes that [batch_decode_yolo] returns are candidates of its loops,
    in the order in which the loops have built them and with nothing but
    the caches [label] and [score] filled in; they are the candidates that
    look into a vector where the call has left a class score above
    [obj_thre]. *)
Theorem decoded_boxes_are_candidates (argsort : list Q -> list nat) (exp : Q -> Q)
    (anchors : list Q) (nb_class : nat)
    (feature_map_shape : Z * Z) (obj_thre nms_thre : Q) (a a' : ndarray)
    (out : list BoundBox) :
  batch_decode_yolo argsort exp anchors nb_class feature_map_shape obj_thre nms_thre a
    = (Ok out, a') ->
  exists batch grid_h grid_w nb_box rest a1 boxes,
    shape a = batch :: grid_h :: grid_w :: nb_box :: rest /\
    activate exp obj_thre a = (Ok tt, a1) /\
    build_boxes exp anchors (fst feature_map_shape) (snd feature_map_shape)
      grid_h grid_w nb_box a1 = (Ok boxes, a1) /\
    sublist (map candidate_of out) (map candidate_of boxes) /\
    forall box, box ∈ boxes ->
      (above_threshold obj_thre a' box <-> candidate_of box ∈ map candidate_of out).
Proof.
  intros Hrun.
  apply batch_decode_yolo_inv in Hrun
    as (batch & grid_h & grid_w & nb_box & rest & a1 & boxes & Hsh & Hact & Hbuild & _ & Hfin).
  exists batch, grid_h, grid_w, nb_box, rest, a1, boxes.
  split; [exact Hsh|]. split; [exact Hact|]. split; [exact Hbuild|].
  pose proof (build_boxes_views_NoDup _ _ _ _ _ _ _ _ _ _ Hbuild) as Hnd.
  apply build_boxes_new in Hbuild.
  apply final_filter_spec in Hfin as (bss & HF & ->).
  clear -Hbuild HF Hnd.
  induction HF as [|box bs boxes bss (s & box' & Hget & ->) _ IH].
  - split; [constructor|]. intros box Hin. inversion Hin.
  - apply Forall_cons in Hbuild as [(Hl & Hs & _) Hrest].
    cbn [map] in Hnd. apply NoDup_cons in Hnd as [Hfresh Hnd].
    destruct (IH Hrest Hnd) as [IHsub IHin]. clear IH.
    pose proof (get_score_candidate_of _ _ _ _ _ Hget) as Hsame.
    destruct (get_score_new_inv _ _ _ _ _ Hl Hs Hget) as (_ & v & i & Hv & Hmax & _).
    cbn [concat map]. rewrite map_app. split.
    + destruct (Qlt_le_dec obj_thre s); cbn [map app].
      * rewrite Hsame. apply sublist_skip. exact IHsub.
      * apply sublist_cons. exact IHsub.
    + intros b Hb. rewrite elem_of_app.
      apply elem_of_cons in Hb as [-> | Hb].
      * split.
        -- intros (v0 & s0 & Hv0 & Hs0 & Hthre). left.
           rewrite Hv in Hv0. injection Hv0 as <-.
           pose proof (first_max_at_bounds _ _ _ _ Hmax Hs0).
           destruct (Qlt_le_dec obj_thre s); [|lra].
           cbn [map]. rewrite Hsame. apply list_elem_of_here.
        -- intros [Hhere | Hlater].
           ++ destruct (Qlt_le_dec obj_thre s) as [Hthre|_]; [|inversion Hhere].
              exists v, s. split; [exact Hv|]. split; [|exact Hthre].
              destruct Hmax as (Hat & _). eapply list_elem_of_lookup_2. exact Hat.
           ++ exfalso. apply Hfresh.
              pose proof (elem_of_sublist _ _ _ Hlater IHsub) as Hin.
              apply list_elem_of_fmap in Hin as (b0 & Hb0 & Hin0).
              apply list_elem_of_fmap. exists b0. split; [|exact Hin0].
              unfold candidate_of in Hb0. congruence.
      * rewrite (IHin b Hb). split; [intros H; right; exact H|].
        intros [Hhere | Hlater]; [|exact Hlater]. exfalso. apply Hfresh.
        destruct (Qlt_le_dec obj_thre s); [|inversion Hhere].
        cbn [map] in Hhere. apply list_elem_of_singleton in Hhere.
        apply list_elem_of_fmap. exists b. split; [|exact Hb].
        rewrite Hsame in Hhere. unfold candidate_of in Hhere. congruence.
Qed.

Lemma decoded_boxes_are_candidates_witness :
  exists boxes,
    build_boxes exp2 (replicate 12 1) 28 28 6 6 6 (snd (activate exp2 (3 # 10) two_box_cube))
      = (Ok boxes, snd (activate exp2 (3 # 10) two_box_cube)) /\
    sublist (map candidate_of [mkBoundBox 0 0 4 4 (1 # 2) 1 0 (1 # 2)])
      (map candidate_of boxes).
Proof.
  destruct (decoded_boxes_are_candidates argsort_stable exp2 (replicate 12 1) 1 (28, 28)%Z
              (3 # 10) (3 # 10) two_box_cube
              (snd (batch_decode_yolo argsort_stable exp2 (replicate 12 1) 1 (28, 28)%Z (3 # 10)
                      (3 # 10) two_box_cube))
              [mkBoundBox 0 0 4 4 (1 # 2) 1 0 (1 # 2)])
    as (batch & grid_h & grid_w & nb_box & rest & a1 & boxes & Hsh & Hact & Hbuild & Hsub & _).
  - vm_compute. reflexivity.
  - cbn in Hsh. injection Hsh as <- <- <- <- <-.
    exists boxes. rewrite Hact. split; [exact Hbuild|exact Hsub].
Defined.

Section PositiveExpDecoder.

Variable exp : Q -> Q.
Hypothesis exp_pos : forall y, 0 < exp y.

Lemma sigmoid_below_one (x : Q) : _sigmoid exp x < 1.
Proof.
  unfold _sigmoid. pose proof (exp_pos (- x)).
  apply Qlt_shift_div_r; lra.
Qed.

(** After the activation pass the channel 4 of every vector is below [1]
    and every class score lies between [0] and the channel 4 of its
    vector. *)
Lemma activate_scores_below_objectness (obj_thre : Q) (a a3 : ndarray)
    (r : nat) (v3 : list Q) :
  activate exp obj_thre a = (Ok tt, a3) ->
  rows a3 !! r = Some v3 ->
  nth 4 v3 0 < 1 /\ Forall (fun s => 0 <= s /\ s <= nth 4 v3 0) (drop 5 v3).
Proof.
  intros Hact Hv3. unfold activate, bind in Hact.
  destruct (act_objectness exp a) as [[[]|e] a1] eqn:E1; [|discriminate].
  destruct (act_classes exp a1) as [[[]|e] a2] eqn:E2; [|discriminate].
  apply act_objectness_rows in E1 as [_ Hr1].
  apply act_classes_rows in E2 as (p & Hp & _ & Hr2).
  pose proof (softmax_unit exp exp_pos _ _ _ Hp) as Hunit.
  apply softmax_rows in Hp as (g & -> & Hg).
  unfold act_threshold, modify_rows in Hact. injection Hact as <-.
  cbn [rows set_rows] in Hv3. rewrite Hr2, Hr1 in Hv3.
  rewrite Hr1 in Hunit. rewrite !map_map in Hunit.
  rewrite !map_map, zip_with_fmap_r, zip_with_fmap_l, zip_with_diag, map_map in Hv3.
  rewrite list_lookup_fmap in Hv3.
  destruct (rows a !! r) as [v|] eqn:Hv; [|discriminate]. simpl in Hv3.
  injection Hv3 as <-.
  rewrite Forall_map, Forall_forall in Hunit.
  assert (Hgv : Forall in_unit
                  (g (drop 5 (<[4%nat := _sigmoid exp (nth 4 v 0)]> v)))).
  { apply (Hunit v). eapply list_elem_of_lookup_2. exact Hv. }
  set (v1 := <[4%nat := _sigmoid exp (nth 4 v 0)]> v) in *.
  set (v2 := take 5 v1 ++ map (Qmult (nth 4 v1 0)) (g (drop 5 v1))).
  assert (Hl2 : length (map (Qmult (nth 4 v1 0)) (g (drop 5 v1))) = length (drop 5 v1))
    by (rewrite length_map; apply Hg).
  assert (Hl3 : length (map (threshold_mask obj_thre) (drop 5 v2)) = length (drop 5 v2))
    by apply length_map.
  assert (Hc : nth 4 (take 5 v2 ++ map (threshold_mask obj_thre) (drop 5 v2)) 0
               = nth 4 v1 0).
  { rewrite !nth_lookup. rewrite head_lookup by (lia || assumption).
    unfold v2. rewrite head_lookup by (lia || assumption). reflexivity. }
  rewrite Hc. rewrite drop_5_rewritten by exact Hl3.
  unfold v2 at 1. rewrite drop_5_rewritten by exact Hl2.
  pose proof (objectness_unit exp exp_pos v) as [Hc0 Hc1]. fold v1 in Hc0, Hc1.
  split.
  - unfold v1. destruct (decide (4 < length v)%nat) as [H4|H4].
    + rewrite (nth_lookup_Some _ _ _ (_sigmoid exp (nth 4 v 0))).
      * apply sigmoid_below_one.
      * apply list_lookup_insert_eq. exact H4.
    + rewrite nth_overflow by (rewrite length_insert; lia). reflexivity.
  - apply Forall_map, Forall_map.
    eapply Forall_impl; [exact Hgv|]. intros s [Hs0 Hs1]. simpl.
    unfold threshold_mask. destruct (Qlt_le_dec obj_thre (nth 4 v1 0 * s)); nra.
Qed.

(** The facts about a returned box that the bounds below rest on. *)
Lemma decoded_box_bounds (argsort : list Q -> list nat) (anchors : list Q) (nb_class : nat)
    (feature_map_shape : Z * Z) (obj_thre nms_thre : Q) (a a' : ndarray)
    (out : list BoundBox) :
  batch_decode_yolo argsort exp anchors nb_class feature_map_shape obj_thre nms_thre a
    = (Ok out, a') ->
  Forall (fun box =>
    obj_thre < score box /\ 0 <= score box /\ score box <= c box /\ c box < 1) out.
Proof.
  intros Hrun.
  apply batch_decode_yolo_inv in Hrun
    as (batch & grid_h & grid_w & nb_box & rest & a1 & boxes & _ & Hact & Hbuild & Hsup & Hfin).
  apply build_boxes_new in Hbuild.
  apply suppress_suppressed in Hsup.
  apply final_filter_spec in Hfin as (bss & HF & ->).
  apply Forall_concat. clear -exp_pos Hact Hbuild Hsup HF.
  induction HF as [|box bs boxes bss (s & box' & Hget & ->) _ IH]; [constructor|].
  apply Forall_cons in Hbuild as [(Hl & Hs & v1 & Hv1 & Hc & _) Hrest].
  constructor; [|apply IH; exact Hrest].
  destruct (Qlt_le_dec obj_thre s) as [Hthre|_]; [|constructor].
  constructor; [|constructor].
  destruct (get_score_new_inv _ _ _ _ _ Hl Hs Hget) as (_ & v & i & Hv & Hmax & ->).
  cbn [score c]. split; [exact Hthre|].
  destruct (suppressed_lookup _ _ _ _ Hsup Hv) as (v1' & Hv1' & Hlen & Hn).
  rewrite Hv1 in Hv1'. injection Hv1' as <-.
  destruct (activate_scores_below_objectness _ _ _ _ _ Hact Hv1) as [Hone Hbound].
  rewrite <- Hc in Hone, Hbound.
  destruct Hmax as (Hat & _). rewrite lookup_drop in Hat.
  destruct (lookup_lt_is_Some_2 v1 (5 + i)) as [s1 Hs1].
  { rewrite <- Hlen. eapply lookup_lt_Some. exact Hat. }
  rewrite Forall_forall in Hbound.
  destruct (Hbound s1) as [Hs10 Hs1c].
  { eapply list_elem_of_lookup_2. rewrite lookup_drop. exact Hs1. }
  destruct (Hn (5 + i)%nat) as [E | [_ E]]; rewrite Hat in E.
  - rewrite Hs1 in E. injection E as ->. repeat split; assumption.
  - injection E as ->. repeat split; [apply Qle_refl|lra|exact Hone].
Qed.

(** With a positive exponential, the score of every box that
    [batch_decode_yolo] returns lies between [0] and the confidence [c] of
    the box, which is [1] at most. *)
Theorem decoded_scores_below_confidence (argsort : list Q -> list nat) (anchors : list Q)
    (nb_class : nat)
    (feature_map_shape : Z * Z) (obj_thre nms_thre : Q) (a a' : ndarray)
    (out : list BoundBox) :
  batch_decode_yolo argsort exp anchors nb_class feature_map_shape obj_thre nms_thre a
    = (Ok out, a') ->
  Forall (fun box => 0 <= score box /\ score box <= c box /\ c box <= 1) out.
Proof.
  intros Hrun. eapply Forall_impl; [exact (decoded_box_bounds _ _ _ _ _ _ _ _ _ Hrun)|].
  intros box (_ & H0 & Hc & H1). repeat split; [exact H0|exact Hc|lra].
Qed.

(** With a positive exponential and a threshold [obj_thre] of [1] or more,
    [batch_decode_yolo] returns no box, whatever the array holds. *)
Theorem threshold_of_one_returns_nothing (argsort : list Q -> list nat) (anchors : list Q)
    (nb_class : nat)
    (feature_map_shape : Z * Z) (obj_thre nms_thre : Q) (a a' : ndarray)
    (out : list BoundBox) :
  1 <= obj_thre ->
  batch_decode_yolo argsort exp anchors nb_class feature_map_shape obj_thre nms_thre a
    = (Ok out, a') ->
  out = [].
Proof.
  intros Hthre Hrun. pose proof (decoded_box_bounds _ _ _ _ _ _ _ _ _ Hrun) as Hb.
  destruct out as [|box out]; [reflexivity|].
  apply Forall_cons in Hb as [(H1 & _ & H2 & H3) _]. lra.
Qed.

(** ** The corners of the candidates *)

Lemma int_monotone (x y : Q) : x <= y -> (int x <= int y)%Z.
Proof.
  intros Hxy.
  destruct (int_truncates x) as [Hx0 Hx1], (int_truncates y) as [Hy0 Hy1].
  destruct (Qlt_le_dec x 0) as [Hx|Hx], (Qlt_le_dec y 0) as [Hy|Hy].
  - rewrite Hx1, Hy1 by lra. apply Qceiling_resp_le. exact Hxy.
  - rewrite Hx1, Hy0 by lra.
    transitivity 0%Z.
    + change 0%Z with (Qceiling 0). apply Qceiling_resp_le. lra.
    + change 0%Z with (Qfloor 0). apply Qfloor_resp_le. exact Hy.
  - lra.
  - rewrite Hx0, Hy0 by lra. apply Qfloor_resp_le. exact Hxy.
Qed.

Lemma int_inject_Z (z : Z) : int (inject_Z z) = z.
Proof. unfold int. simpl. apply Z.quot_1_r. Qed.

Lemma anchors_get_nonneg (anchors : list Q) (i : nat) (v : Q) :
  Forall (fun s => 0 <= s) anchors -> anchors_get anchors i = Ok v -> 0 <= v.
Proof.
  intros Hpos. unfold anchors_get. destruct (anchors !! i) as [s|] eqn:Hs; [|discriminate].
  intros [= <-]. rewrite Forall_forall in Hpos. apply Hpos.
  eapply list_elem_of_lookup_2. exact Hs.
Qed.

Lemma of_nat_nonneg (n : nat) : 0 <= of_nat n.
Proof.
  unfold of_nat. change 0 with (inject_Z 0). rewrite <- Zle_Qle. lia.
Qed.

Lemma Qdiv_nonneg (p q : Q) : 0 <= p -> 0 <= q -> 0 <= p / q.
Proof.
  intros Hp Hq. unfold Qdiv. apply Qmult_le_0_compat; [exact Hp|].
  apply Qinv_le_0_compat. exact Hq.
Qed.

(** The box in image units of a cell of the grid: its left and top sides
    do not come after its right and bottom sides, and its left side is on
    the left of the right border of the image. *)
Lemma image_box_ordered (anchors : list Q) (grid_h grid_w row col b : nat)
    (v : list Q) (ib : ImageBox) :
  Forall (fun s => 0 <= s) anchors ->
  (col < grid_w)%nat ->
  image_box exp anchors grid_h grid_w row col b v = Ok ib ->
  bxmin ib <= bxmax ib /\ bymin ib <= bymax ib /\ bxmin ib <= 1.
Proof.
  intros Hanchors Hcol. unfold image_box.
  destruct (anchors_get anchors (2 * b + 0)) as [aw|e] eqn:Haw; [|discriminate].
  destruct (anchors_get anchors (2 * b + 1)) as [ah|e] eqn:Hah; [|discriminate].
  simpl. intros [= <-]. cbn [bxmin bxmax bymin bymax].
  apply anchors_get_nonneg in Haw, Hah; try exact Hanchors.
  pose proof (exp_pos (nth 2 v 0)) as He2. pose proof (exp_pos (nth 3 v 0)) as He3.
  assert (Hw : 0 <= aw * exp (nth 2 v 0) / of_nat grid_w).
  { apply Qdiv_nonneg; [nra|apply of_nat_nonneg]. }
  assert (Hh : 0 <= ah * exp (nth 3 v 0) / of_nat grid_h).
  { apply Qdiv_nonneg; [nra|apply of_nat_nonneg]. }
  assert (Hx : (of_nat col + _sigmoid exp (nth 0 v 0)) / of_nat grid_w <= 1).
  { assert (Hg : of_nat col + 1 <= of_nat grid_w).
    { unfold of_nat. change 1 with (inject_Z 1). rewrite <- inject_Z_plus, <- Zle_Qle. lia. }
    pose proof (of_nat_nonneg col) as Hc0.
    pose proof (sigmoid_below_one (nth 0 v 0)) as Hs.
    apply Qle_shift_div_r; lra. }
  set (w := aw * exp (nth 2 v 0) / of_nat grid_w) in *.
  set (h := ah * exp (nth 3 v 0) / of_nat grid_h) in *.
  assert (Hw2 : 0 <= w / 2) by (apply Qdiv_nonneg; lra).
  assert (Hh2 : 0 <= h / 2) by (apply Qdiv_nonneg; lra).
  repeat split; lra.
Qed.

(** With a positive exponential, anchors that are not negative and a
    feature map whose sizes are not negative, every candidate of the loops
    has [xmin <= xmax <= fm_width] and [ymin <= ymax <= fm_height]: the
    intervals that [bbox_iou] hands to [_interval_overlap] are given by
    their lower and upper ends, in that order. *)
Theorem candidate_corners_ordered (anchors : list Q) (fm_height fm_width : Z)
    (grid_h grid_w nb_box : nat) (a a' : ndarray) (boxes : list BoundBox) :
  Forall (fun s => 0 <= s) anchors ->
  (0 <= fm_height)%Z -> (0 <= fm_width)%Z ->
  build_boxes exp anchors fm_height fm_width grid_h grid_w nb_box a = (Ok boxes, a') ->
  Forall (fun box =>
    (xmin box <= xmax box <= fm_width)%Z /\ (ymin box <= ymax box <= fm_height)%Z) boxes.
Proof.
  intros Hanchors Hfh Hfw Hrun. apply Forall_forall. intros box Hin.
  destruct (build_boxes_elem_of _ _ _ _ _ _ _ _ _ _ _ Hrun Hin)
    as (row & col & b & bs & Hrow & Hcol & Hb & Hcand & Hbs).
  destruct (candidate_emits _ _ _ _ _ _ _ _ _ _ _ _ _ Hcand Hbs)
    as (r & _ & Hidx & _ & _ & Hdec).
  unfold decode_box in Hdec.
  destruct (image_box exp anchors grid_h grid_w row col b (nth r (rows a) []))
    as [ib|e] eqn:Eib; [|discriminate].
  simpl in Hdec. injection Hdec as <-.
  destruct (image_box_ordered _ _ _ _ _ _ _ _ Hanchors Hcol Eib) as (Hx & Hy & Hleft).
  cbn [xmin xmax ymin ymax rescale_box new_BoundBox].
  assert (Hqw : 0 <= inject_Z fm_width)
    by (change 0 with (inject_Z 0); rewrite <- Zle_Qle; exact Hfw).
  assert (Hqh : 0 <= inject_Z fm_height)
    by (change 0 with (inject_Z 0); rewrite <- Zle_Qle; exact Hfh).
  assert (H1 : (int (bxmin ib * inject_Z fm_width) <= int (bxmax ib * inject_Z fm_width))%Z)
    by (apply int_monotone; nra).
  assert (H2 : (int (bymin ib * inject_Z fm_height) <= int (bymax ib * inject_Z fm_height))%Z)
    by (apply int_monotone; nra).
  assert (H3 : (int (bxmin ib * inject_Z fm_width) <= fm_width)%Z).
  { rewrite <- (int_inject_Z fm_width) at 2. apply int_monotone. nra. }
  lia.
Qed.

End PositiveExpDecoder.

Lemma decoded_scores_below_confidence_witness :
  Forall (fun box => 0 <= score box /\ score box <= c box /\ c box <= 1)
    [mkBoundBox 0 0 4 4 (1 # 2) 1 0 (1 # 2)].
Proof.
  apply (decoded_scores_below_confidence exp2 exp2_pos argsort_stable (replicate 12 1) 1 (28, 28)%Z
           (3 # 10) (3 # 10) two_box_cube
           (snd (batch_decode_yolo argsort_stable exp2 (replicate 12 1) 1 (28, 28)%Z (3 # 10)
                   (3 # 10) two_box_cube))).
  vm_compute. reflexivity.
Defined.

Lemma threshold_of_one_returns_nothing_witness :
  fst (batch_decode_yolo argsort_stable exp2 (replicate 12 1) 1 (28, 28)%Z 1
    (3 # 10) two_box_cube) = Ok [].
Proof.
  destruct (batch_decode_yolo argsort_stable exp2 (replicate 12 1) 1 (28, 28)%Z 1
    (3 # 10) two_box_cube)
    as [r a'] eqn:Hrun.
  assert (Hok : exists out, r = Ok out).
  { apply (f_equal fst) in Hrun. vm_compute in Hrun. subst r. eexists. reflexivity. }
  destruct Hok as [out ->].
  rewrite (threshold_of_one_returns_nothing exp2 exp2_pos argsort_stable (replicate 12 1) 1
    (28, 28)%Z
             1 (3 # 10) two_box_cube a' out); [reflexivity|lra|exact Hrun].
Defined.

Lemma candidate_corners_ordered_witness :
  Forall (fun box =>
    (xmin box <= xmax box <= 28)%Z /\ (ymin box <= ymax box <= 28)%Z)
    [new_BoundBox 0 0 4 4 (1 # 2) 0; new_BoundBox (-4) (-4) 9 9 (1 # 2) 1].
Proof.
  apply (candidate_corners_ordered exp2 exp2_pos anchors_two_sizes 28 28 6 6 6
           (snd (activate exp2 (3 # 10) two_box_cube))
           (snd (activate exp2 (3 # 10) two_box_cube))).
  - vm_compute. repeat constructor; discriminate.
  - lia.
  - lia.
  - vm_compute. reflexivity.
Defined.

(** ** What the suppression pass zeroes *)

Lemma suppress_later_cause (boxes : list BoundBox) (k : nat) (nms_thre : Q)
    (index_i : nat) (box_i : BoundBox) (later : list nat) (a a' : ndarray) :
  boxes !! index_i = Some box_i ->
  suppress_later boxes k nms_thre index_i later a = (Ok tt, a') ->
  forall r s s',
    score_at a r k = Some s -> ~ s == 0 ->
    score_at a' r k = Some s' -> s' == 0 ->
    exists j box_j iou,
      j ∈ later /\ boxes !! j = Some box_j /\ classes box_j = r /\
      bbox_iou box_i box_j = Ok iou /\ nms_thre <= iou.
Proof.
  intros Hi. unfold suppress_later. revert a.
  induction later as [|index_j later IH]; intros a.
  - simpl. unfold ret. intros [= <-] r s s' Hs Hnz Hs' Hz.
    rewrite Hs in Hs'. injection Hs' as <-. contradiction.
  - rewrite for_each_cons_run, (suppress_pair_run _ _ _ _ _ _ _ Hi).
    destruct (boxes !! index_j) as [box_j|] eqn:Hj; [|discriminate].
    destruct (bbox_iou box_i box_j) as [iou|e] eqn:Hiou; [|discriminate].
    destruct (Qle_bool nms_thre iou) eqn:Hle.
    + destruct (classes_set box_j k 0 a) as [[[]|e] a1] eqn:Hset; [|discriminate].
      intros Hrest r s s' Hs Hnz Hs' Hz.
      apply classes_set_zeroes in Hset as [Hz1 _].
      destruct (zeroes_score_at k _ a a1 r k Hz1) as [E | (_ & Hr & _)].
      * rewrite Hs in E.
        destruct (IH a1 Hrest r s s' E Hnz Hs' Hz) as (j & bj & iou' & Hin & H).
        exists j, bj, iou'. split; [right; exact Hin|exact H].
      * exists index_j, box_j, iou. split; [left|].
        split; [exact Hj|]. split; [exact Hr|]. split; [exact Hiou|].
        apply Qle_bool_iff. exact Hle.
    + intros Hrest r s s' Hs Hnz Hs' Hz.
      destruct (IH a Hrest r s s' Hs Hnz Hs' Hz) as (j & bj & iou' & Hin & H).
      exists j, bj, iou'. split; [right; exact Hin|exact H].
Qed.

Lemma suppress_from_cause (boxes : list BoundBox) (k : nat) (nms_thre : Q)
    (l : list nat) (a a' : ndarray) :
  NoDup (map classes boxes) ->
  NoDup l ->
  suppress_from boxes k nms_thre l a = (Ok tt, a') ->
  caused boxes k nms_thre l a a'.
Proof.
  intros Hviews. revert a. induction l as [|index_i later IH]; intros a Hnd.
  - simpl. unfold ret. intros [= <-] r s s' Hs Hnz Hs' Hz.
    rewrite Hs in Hs'. injection Hs' as <-. contradiction.
  - apply NoDup_cons in Hnd as [Hnotin Hnd]. rewrite suppress_from_cons_run.
    destruct (boxes !! index_i) as [box_i|] eqn:Hi; [|discriminate].
    destruct (score_at a (classes box_i) k) as [s0|] eqn:Hs0; [|discriminate].
    assert (Hfresh : ~ viewed boxes later (classes box_i)).
    { intros (j & box & Hin & Hb & Hr).
      assert (j = index_i); [|congruence].
      eapply (NoDup_lookup _ _ _ _ Hviews).
      - rewrite list_lookup_fmap, Hb. simpl. rewrite Hr. reflexivity.
      - rewrite list_lookup_fmap, Hi. reflexivity. }
    destruct (Qeq_bool s0 0) eqn:Hq0.
    + intros Hrest r s s' Hs Hnz Hs' Hz.
      destruct (IH a Hnd Hrest r s s' Hs Hnz Hs' Hz)
        as (p & q & i & j & bi & bj & si & iou & Hpq & Hp & Hq & H).
      exists (S p), (S q), i, j, bi, bj, si, iou.
      split; [lia|]. split; [exact Hp|]. split; [exact Hq|exact H].
    + destruct (suppress_later boxes k nms_thre index_i later a) as [[[]|e] a1] eqn:Hl;
        [|discriminate].
      intros Hrest.
      destruct (suppress_later_spec _ _ _ _ _ _ _ _ Hi Hl) as [Hz1 _].
      destruct (suppress_from_spec _ _ _ _ _ _ Hviews Hnd Hrest) as [Hz2 _].
      intros r s s' Hs Hnz Hs' Hz.
      destruct (zeroes_score_at k _ a a1 r k Hz1) as [E | (_ & _ & E)].
      * rewrite Hs in E.
        destruct (IH a1 Hnd Hrest r s s' E Hnz Hs' Hz)
          as (p & q & i & j & bi & bj & si & iou & Hpq & Hp & Hq & Hbi & Hbj & Hr
              & Hsi1 & Hsi' & Hnzi & Hiou & Hle).
        exists (S p), (S q), i, j, bi, bj, si, iou.
        split; [lia|]. split; [exact Hp|]. split; [exact Hq|].
        split; [exact Hbi|]. split; [exact Hbj|]. split; [exact Hr|].
        split; [|repeat split; assumption].
        destruct (zeroes_score_at k _ a a1 (classes bi) k Hz1) as [E' | (_ & _ & E')].
        -- rewrite <- E'. exact Hsi1.
        -- rewrite Hsi1 in E'. injection E' as ->. exfalso. apply Hnzi. reflexivity.
      * destruct (suppress_later_cause _ _ _ _ _ _ _ _ Hi Hl r s 0 Hs Hnz E (Qeq_refl 0))
          as (j & bj & iou & Hin & Hbj & Hr & Hiou & Hle).
        apply list_elem_of_lookup in Hin as (q & Hq).
        exists 0%nat, (S q), index_i, j, box_i, bj, s0, iou.
        split; [lia|]. split; [reflexivity|]. split; [exact Hq|].
        split; [exact Hi|]. split; [exact Hbj|]. split; [exact Hr|].
        split; [exact Hs0|]. split; [|split; [|split; assumption]].
        -- destruct (zeroes_score_at k _ a1 a' (classes box_i) k Hz2)
             as [E2 | (_ & Hv & _)]; [|contradiction].
           destruct (zeroes_score_at k _ a a1 (classes box_i) k Hz1)
             as [E1 | (_ & Hv & _)]; [|contradiction].
           congruence.
        -- intros H0. apply Qeq_bool_iff in H0. congruence.
Qed.

Lemma suppress_class_cause (argsort : list Q -> list nat) (boxes : list BoundBox)
    (nms_thre : Q) (k : nat) (a a' : ndarray) :
  sorts argsort ->
  NoDup (map classes boxes) ->
  suppress_class argsort boxes nms_thre k a = (Ok tt, a') ->
  exists col,
    column_of a boxes k = Some col /\
    caused boxes k nms_thre (sorted_indices_of argsort col) a a'.
Proof.
  intros Hsorts Hviews. unfold suppress_class, bind. rewrite class_column_run.
  destruct (column_of a boxes k) as [col|]; [|discriminate].
  intros Hrun. exists col. split; [reflexivity|].
  exact (suppress_from_cause _ _ _ _ _ _ Hviews
           (sorted_indices_of_NoDup argsort col Hsorts) Hrun).
Qed.

Lemma suppress_classes_cause (argsort : list Q -> list nat) (boxes : list BoundBox)
    (nms_thre : Q) (ks : list nat) (a a' : ndarray) :
  sorts argsort ->
  NoDup (map classes boxes) ->
  NoDup ks ->
  for_each ks (suppress_class argsort boxes nms_thre) a = (Ok tt, a') ->
  forall k r s s',
    score_at a r k = Some s -> ~ s == 0 ->
    score_at a' r k = Some s' -> s' == 0 ->
    k ∈ ks /\
    exists col,
      column_of a boxes k = Some col /\
      exists p q i j box_i box_j s_i iou,
        (p < q)%nat /\
        sorted_indices_of argsort col !! p = Some i /\ sorted_indices_of argsort col !! q = Some j
          /\
        boxes !! i = Some box_i /\ boxes !! j = Some box_j /\ classes box_j = r /\
        score_at a (classes box_i) k = Some s_i /\
        score_at a' (classes box_i) k = Some s_i /\ ~ s_i == 0 /\
        bbox_iou box_i box_j = Ok iou /\ nms_thre <= iou.
Proof.
  intros Hsorts Hviews. revert a. induction ks as [|k0 ks IH]; intros a Hnd.
  - simpl. unfold ret. intros [= <-] k r s s' Hs Hnz Hs' Hz.
    rewrite Hs in Hs'. injection Hs' as <-. contradiction.
  - pose proof Hnd as Hnd0.
    apply NoDup_cons in Hnd as [Hk0 Hnd]. rewrite for_each_cons_run.
    destruct (suppress_class argsort boxes nms_thre k0 a) as [[[]|e] a1] eqn:E0; [|discriminate].
    intros Hrest.
    destruct (suppress_class_spec _ _ _ _ _ _ Hsorts Hviews E0) as (col0 & Hcol0 & Hz0 & _).
    destruct (suppress_class_cause _ _ _ _ _ _ Hsorts Hviews E0)
      as (col0' & Hcol0' & Hcause0).
    rewrite Hcol0 in Hcol0'. injection Hcol0' as <-.
    destruct (suppress_classes_spec _ _ _ _ _ _ Hsorts Hviews Hnd Hrest) as [Hframe _].
    intros k r s s' Hs Hnz Hs' Hz.
    destruct (decide (k = k0)) as [->|Hk].
    + split; [left|]. exists col0. split; [exact Hcol0|].
      rewrite (Hframe r k0 Hk0) in Hs'.
      destruct (Hcause0 r s s' Hs Hnz Hs' Hz)
        as (p & q & i & j & bi & bj & si & iou & Hpq & Hp & Hq & Hbi & Hbj & Hr
            & Hsi & Hsi' & H).
      exists p, q, i, j, bi, bj, si, iou.
      repeat (split; [assumption|]). split; [|exact H].
      rewrite (Hframe _ k0 Hk0). exact Hsi'.
    + assert (Hsame : forall r0, score_at a1 r0 k = score_at a r0 k).
      { intros r0. eapply zeroes_other_class; [exact Hz0|exact Hk]. }
      rewrite <- Hsame in Hs.
      destruct (IH a1 Hnd Hrest k r s s' Hs Hnz Hs' Hz) as [Hin (col & Hcol & H)].
      split; [right; exact Hin|]. exists col. split.
      * rewrite <- Hcol. symmetry. apply column_of_ext. exact Hsame.
      * destruct H as (p & q & i & j & bi & bj & si & iou & Hpq & Hp & Hq & Hbi & Hbj & Hr
                       & Hsi & H).
        exists p, q, i, j, bi, bj, si, iou.
        repeat (split; [assumption|]). split; [|exact H].
        rewrite <- Hsame. exact Hsi.
Qed.

Lemma column_of_lookup (a : ndarray) (boxes : list BoundBox) (k : nat) (col : list Q)
    (j : nat) (box : BoundBox) :
  column_of a boxes k = Some col -> boxes !! j = Some box ->
  col !! j = score_at a (classes box) k.
Proof.
  revert col j. induction boxes as [|box0 boxes IH]; intros col j Hcol Hj; [discriminate|].
  cbn [column_of] in Hcol.
  destruct (score_at a (classes box0) k) as [s0|] eqn:Hs0; [|discriminate].
  destruct (column_of a boxes k) as [col'|]; [|discriminate].
  injection Hcol as <-. destruct j as [|j].
  - injection Hj as <-. rewrite Hs0. reflexivity.
  - apply (IH col' j eq_refl Hj).
Qed.

(** The suppression pass of [batch_decode_yolo] zeroes nothing without a
    cause: where a score for class [k] that was not zero has become zero,
    [k] is one of the [nb_class] classes, the vector is the one a candidate
    [j] looks into, and a candidate [i] ranked before [j] in
    [sorted_indices], whose score for [k] was not less and which has kept
    it, has an IoU with [j] that reaches [nms_thre]. *)
Theorem suppressed_score_has_a_cause (argsort : list Q -> list nat) (exp : Q -> Q)
    (anchors : list Q) (fm_height fm_width : Z) (grid_h grid_w nb_box nb_class : nat)
    (nms_thre : Q) (a a1 a' : ndarray) (boxes : list BoundBox) (k r : nat) (s s' : Q) :
  sorts argsort ->
  build_boxes exp anchors fm_height fm_width grid_h grid_w nb_box a = (Ok boxes, a1) ->
  suppress argsort boxes nb_class nms_thre a1 = (Ok tt, a') ->
  score_at a1 r k = Some s -> ~ s == 0 ->
  score_at a' r k = Some s' -> s' == 0 ->
  (k < nb_class)%nat /\
  exists col,
    column_of a1 boxes k = Some col /\
    exists p q i j box_i box_j s_i iou,
      (p < q)%nat /\
      sorted_indices_of argsort col !! p = Some i /\
      sorted_indices_of argsort col !! q = Some j /\
      boxes !! i = Some box_i /\ boxes !! j = Some box_j /\ classes box_j = r /\
      score_at a1 (classes box_i) k = Some s_i /\
      score_at a' (classes box_i) k = Some s_i /\ ~ s_i == 0 /\ s <= s_i /\
      bbox_iou box_i box_j = Ok iou /\ nms_thre <= iou.
Proof.
  intros Hsorts Hbuild Hrun Hs Hnz Hs' Hz.
  pose proof (build_boxes_views_NoDup _ _ _ _ _ _ _ _ _ _ Hbuild) as Hviews.
  destruct (suppress_classes_cause _ _ _ _ _ _ Hsorts Hviews (NoDup_seq 0 nb_class) Hrun
              k r s s' Hs Hnz Hs' Hz) as [Hin (col & Hcol & H)].
  split; [apply elem_of_seq in Hin; lia|].
  exists col. split; [exact Hcol|].
  destruct H as (p & q & i & j & bi & bj & si & iou & Hpq & Hp & Hq & Hbi & Hbj & Hr
                 & Hsi & Hsi' & Hnzi & Hiou & Hle).
  exists p, q, i, j, bi, bj, si, iou.
  repeat (split; [assumption|]). split; [|split; assumption].
  pose proof (sorted_indices_of_descending argsort col p q i j Hsorts Hpq Hp Hq) as Hord.
  pose proof (column_of_lookup _ _ _ _ _ _ Hcol Hbi) as Hci.
  pose proof (column_of_lookup _ _ _ _ _ _ Hcol Hbj) as Hcj.
  rewrite Hsi in Hci. rewrite Hr, Hs in Hcj.
  rewrite (nth_lookup_Some _ _ _ _ Hci), (nth_lookup_Some _ _ _ _ Hcj) in Hord.
  exact Hord.
Qed.

Lemma suppressed_score_has_a_cause_witness :
  (0 < 1)%nat /\
  exists col,
    column_of (snd (activate exp2 (3 # 10) two_box_cube))
      [new_BoundBox 0 0 4 4 (1 # 2) 0; new_BoundBox 0 0 4 4 (1 # 2) 1] 0 = Some col /\
    exists p q i j box_i box_j s_i iou,
      (p < q)%nat /\
      sorted_indices_of argsort_stable col !! p = Some i /\
      sorted_indices_of argsort_stable col !! q = Some j /\
      [new_BoundBox 0 0 4 4 (1 # 2) 0; new_BoundBox 0 0 4 4 (1 # 2) 1] !! i = Some box_i /\
      [new_BoundBox 0 0 4 4 (1 # 2) 0; new_BoundBox 0 0 4 4 (1 # 2) 1] !! j = Some box_j /\
      classes box_j = 0%nat /\
      score_at (snd (activate exp2 (3 # 10) two_box_cube)) (classes box_i) 0 = Some s_i /\
      score_at
        (snd (suppress argsort_stable
                [new_BoundBox 0 0 4 4 (1 # 2) 0; new_BoundBox 0 0 4 4 (1 # 2) 1]
                1 (3 # 10) (snd (activate exp2 (3 # 10) two_box_cube))))
        (classes box_i) 0 = Some s_i /\
      ~ s_i == 0 /\ 1 # 2 <= s_i /\
      bbox_iou box_i box_j = Ok iou /\ 3 # 10 <= iou.
Proof.
  apply (suppressed_score_has_a_cause argsort_stable exp2 (replicate 12 1) 28 28 6 6 6 1
           (3 # 10)
           (snd (activate exp2 (3 # 10) two_box_cube))
           (snd (activate exp2 (3 # 10) two_box_cube))
           (snd (suppress argsort_stable
                   [new_BoundBox 0 0 4 4 (1 # 2) 0; new_BoundBox 0 0 4 4 (1 # 2) 1]
                   1 (3 # 10) (snd (activate exp2 (3 # 10) two_box_cube))))
           [new_BoundBox 0 0 4 4 (1 # 2) 0; new_BoundBox 0 0 4 4 (1 # 2) 1]
           0%nat 0%nat (1 # 2) 0).
  - exact argsort_stable_sorts.
  - vm_compute. reflexivity.
  - vm_compute. reflexivity.
  - vm_compute. reflexivity.
  - vm_compute. discriminate.
  - vm_compute. reflexivity.
  - reflexivity.
Defined.

(** ** When the suppression pass returns *)









(** ** How many boxes the decoder returns *)

Lemma for_append_length {A B : Type} (l : list A) (body : A -> M (list B)) (n : nat)
    (a a' : ndarray) (bs : list B) :
  (forall x a0 r a1, body x a0 = (Ok r, a1) -> (length r <= n)%nat) ->
  for_append l body a = (Ok bs, a') ->
  (length bs <= length l * n)%nat.
Proof.
  intros Hbody. revert a a' bs. induction l as [|x l IH]; intros a a' bs; simpl.
  - unfold ret. intros [= <- _]. simpl. lia.
  - unfold bind. destruct (body x a) as [[b|e] a1] eqn:E1; [|discriminate].
    destruct (for_append l body a1) as [[bs'|e] a2] eqn:E2; [|discriminate].
    unfold ret. intros [= <- _]. rewrite length_app.
    pose proof (Hbody _ _ _ _ E1). pose proof (IH _ _ _ E2). lia.
Qed.

Lemma candidate_length (exp : Q -> Q) (anchors : list Q) (fm_height fm_width : Z)
    (grid_h grid_w row col b : nat) (a a' : ndarray) (bs : list BoundBox) :
  candidate exp anchors fm_height fm_width grid_h grid_w row col b a = (Ok bs, a') ->
  (length bs <= 1)%nat.
Proof.
  intros Hrun. destruct bs as [|box bs]; [simpl; lia|].
  destruct (candidate_emits _ _ _ _ _ _ _ _ _ _ _ _ box Hrun) as (r & Hbs & _);
    [left|].
  injection Hbs as ->. simpl. lia.
Qed.

Lemma build_boxes_length (exp : Q -> Q) (anchors : list Q) (fm_height fm_width : Z)
    (grid_h grid_w nb_box : nat) (a a' : ndarray) (boxes : list BoundBox) :
  build_boxes exp anchors fm_height fm_width grid_h grid_w nb_box a = (Ok boxes, a') ->
  (length boxes <= grid_h * (grid_w * nb_box))%nat.
Proof.
  unfold build_boxes. intros Hrun.
  eapply for_append_length in Hrun; [rewrite length_seq in Hrun; exact Hrun|].
  intros row a0 r0 a1 Hrow.
  eapply for_append_length in Hrow; [rewrite length_seq in Hrow; exact Hrow|].
  intros col a2 r2 a3 Hcol.
  eapply for_append_length in Hcol; [rewrite length_seq, Nat.mul_1_r in Hcol; exact Hcol|].
  intros b a4 r4 a5. apply candidate_length.
Qed.

(** [batch_decode_yolo] returns at most one box for each cell of the grid
    and each anchor slot: the boxes it returns look into pairwise distinct
    vectors of the array, and there are at most
    [grid_h * grid_w * nb_box] of them. *)
Theorem decoded_boxes_one_per_slot (argsort : list Q -> list nat) (exp : Q -> Q)
    (anchors : list Q) (nb_class : nat)
    (feature_map_shape : Z * Z) (obj_thre nms_thre : Q) (a a' : ndarray)
    (out : list BoundBox) (batch grid_h grid_w nb_box : nat) (rest : list nat) :
  shape a = batch :: grid_h :: grid_w :: nb_box :: rest ->
  batch_decode_yolo argsort exp anchors nb_class feature_map_shape obj_thre nms_thre a
    = (Ok out, a') ->
  NoDup (map classes out) /\ (length out <= grid_h * (grid_w * nb_box))%nat.
Proof.
  intros Hsh Hrun.
  apply batch_decode_yolo_inv in Hrun
    as (batch' & grid_h' & grid_w' & nb_box' & rest' & a1 & boxes & Hsh' & _ & Hbuild & _
        & Hfin).
  rewrite Hsh in Hsh'. injection Hsh' as <- <- <- <- <-.
  pose proof (build_boxes_views_NoDup _ _ _ _ _ _ _ _ _ _ Hbuild) as Hnd.
  pose proof (build_boxes_length _ _ _ _ _ _ _ _ _ _ Hbuild) as Hlen.
  apply final_filter_spec in Hfin as (bss & HF & ->).
  assert (Hsub : sublist (map classes (concat bss)) (map classes boxes)).
  { clear -HF. induction HF as [|box bs boxes bss (s & box' & Hget & ->) _ IH];
      [constructor|].
    cbn [concat map]. rewrite map_app.
    apply get_score_candidate_of in Hget.
    destruct (Qlt_le_dec obj_thre s); cbn [map app].
    - replace (classes box') with (classes box)
        by (unfold candidate_of in Hget; congruence).
      apply sublist_skip. exact IH.
    - apply sublist_cons. exact IH. }
  split.
  - eapply sublist_NoDup; eassumption.
  - apply sublist_length in Hsub. rewrite !length_map in Hsub. lia.
Qed.

Lemma decoded_boxes_one_per_slot_witness :
  NoDup (map classes [mkBoundBox 0 0 4 4 (1 # 2) 1 0 (1 # 2)]) /\
  (length [mkBoundBox 0 0 4 4 (1 # 2) 1 0 (1 # 2)] <= 6 * (6 * 6))%nat.
Proof.
  apply (decoded_boxes_one_per_slot argsort_stable exp2 (replicate 12 1) 1 (28, 28)%Z (3 # 10)
           (3 # 10) two_box_cube
           (snd (batch_decode_yolo argsort_stable exp2 (replicate 12 1) 1 (28, 28)%Z (3 # 10)
                   (3 # 10) two_box_cube))
           [mkBoundBox 0 0 4 4 (1 # 2) 1 0 (1 # 2)] 6 6 6 6 []).
  - reflexivity.
  - vm_compute. reflexivity.
Defined.

(** ** The image sizes that [MaskYOLO.build] accepts *)

Lemma true_divide_64_exact (h : Z) :
  (Z.abs h < 2 ^ 53)%Z -> true_divide_64 h = Some (inject_Z h / 64).
Proof.
  intros Hh. unfold true_divide_64.
  assert (Hlog : (Z.log2 (Z.abs h) < 53)%Z).
  { destruct (Z.eq_dec (Z.abs h) 0%Z) as [-> | H0]; [reflexivity|].
    apply Z.log2_lt_pow2; lia. }
  destruct (Z.leb_spec (Z.log2 (Z.abs h) - 52) 0%Z) as [_|Hs]; [reflexivity|lia].
Qed.

Lemma quotient_by_64_whole (h : Z) :
  Qeq_bool (inject_Z h / 64) (inject_Z (int (inject_Z h / 64))) = true <-> (64 | h)%Z.
Proof.
  rewrite Qeq_bool_iff.
  assert (Hq : inject_Z h / 64 = Qmake (h * 1) 64) by reflexivity.
  rewrite Hq. unfold int, Qeq. cbn [Qnum Qden inject_Z].
  rewrite !Z.mul_1_r. split.
  - intros H. exists (h ÷ 64)%Z. exact H.
  - intros [m ->]. rewrite Z.quot_mul by lia. reflexivity.
Qed.

Lemma divides_unevenly_exact (h : Z) :
  (Z.abs h < 2 ^ 53)%Z ->
  (divides_unevenly h = Some false <-> (64 | h)%Z) /\
  (divides_unevenly h = Some true <-> ~ (64 | h)%Z).
Proof.
  intros Hh. unfold divides_unevenly. rewrite (true_divide_64_exact h Hh).
  pose proof (quotient_by_64_whole h) as Hw.
  destruct (Qeq_bool (inject_Z h / 64) (inject_Z (int (inject_Z h / 64)))); simpl.
  - split; split; intros H; try reflexivity; try discriminate.
    + apply Hw. reflexivity.
    + exfalso. apply H, Hw. reflexivity.
  - split; split; intros H; try reflexivity; try discriminate.
    + apply Hw in H. discriminate.
    + intros Hd. apply Hw in Hd. discriminate.
Qed.

(** For a height and a width below [2^53] in absolute value, which the
    division turns into doubles without rounding, the guard of
    [MaskYOLO.build] lets an image size through exactly when both are
    multiples of [64], and raises its [Exception] otherwise. *)
Theorem image_size_rejected_iff (h w : Z) :
  (Z.abs h < 2 ^ 53)%Z -> (Z.abs w < 2 ^ 53)%Z ->
  (image_size_rejected h w = Some false <-> (64 | h)%Z /\ (64 | w)%Z) /\
  (image_size_rejected h w = Some true <-> ~ ((64 | h)%Z /\ (64 | w)%Z)).
Proof.
  intros Hh Hw. unfold image_size_rejected.
  destruct (divides_unevenly_exact h Hh) as [Hh0 Hh1].
  destruct (divides_unevenly_exact w Hw) as [Hw0 Hw1].
  destruct (divides_unevenly h) as [[|]|] eqn:Eh.
  - assert (Hnh : ~ (64 | h)%Z) by (apply Hh1; reflexivity).
    split; split; intros H; try reflexivity; try discriminate.
    + exfalso. apply Hnh, H.
    + intros [Hd _]. exact (Hnh Hd).
  - assert (Hdh : (64 | h)%Z) by (apply Hh0; reflexivity).
    split.
    + rewrite Hw0. split; [intros H; split; assumption|intros [_ H]; exact H].
    + rewrite Hw1. split; [intros H [_ Hd]; exact (H Hd)|].
      intros H Hd. apply H. split; assumption.
  - unfold divides_unevenly in Eh. rewrite (true_divide_64_exact h Hh) in Eh.
    discriminate.
Qed.

Lemma image_size_rejected_iff_witness :
  (image_size_rejected 320 448 = Some false <-> (64 | 320)%Z /\ (64 | 448)%Z) /\
  (image_size_rejected 320 448 = Some true <-> ~ ((64 | 320)%Z /\ (64 | 448)%Z)).
Proof.
  apply image_size_rejected_iff; reflexivity.
Defined.

(** Beyond [2^53] the division rounds: [2^53 + 1] is not a multiple of
    [64], and the guard lets it through; [300] is not let through. *)
Lemma image_size_guard_rounds :
  image_size_rejected (2 ^ 53 + 1) 64 = Some false /\
  image_size_rejected 300 64 = Some true.
Proof.
  split; vm_compute; reflexivity.
Qed.
